(** * Resume / job-match pipeline (app.py): a shallow embedding

    The Python module [app.py] is modelled function by function.  Python
    [str] values are sequences of Unicode code points, [bytes] values are
    sequences of octets; exceptions are carried in a sum type; the objects
    the script mutates (the uploaded file's read position, the accumulated
    page text, the user-interface log) are threaded explicitly.

    Third-party libraries ([json], [pdfplumber], [fitz], [google.genai],
    [requests]) are not part of the module: the functions that use them take
    the library's behaviour as an argument.  Module [Ref] holds a JSON
    decoder and module [Scripted] engines that replay a scenario; they are
    used to run the model on concrete inputs. *)

From stdpp Require Import base option list strings pretty gmap.
From Stdlib Require Import ZArith NArith Ascii Lia.

Set Warnings "-register-all".

Open Scope N_scope.
Open Scope list_scope.

(** ** Python values *)

(** A code point; a [str] is a list of them. *)
Abbreviation char := N (only parsing).
Abbreviation str := (list N) (only parsing).
Abbreviation bytes := (list Byte.byte) (only parsing).

(** A source-code literal (ASCII only) as a [str]. *)
Definition lit (s : string) : str :=
  (fun a : ascii => N_of_ascii a) <$> String.list_ascii_of_string s.

(** [str.isspace] on one code point: the code points whose bidirectional
    class is WS, B or S, or whose category is Zs. *)
Definition is_space (c : char) : bool :=
  ((9 <=? c) && (c <=? 13)) || ((28 <=? c) && (c <=? 32))
  || (c =? 133) || (c =? 160) || (c =? 5760)
  || ((8192 <=? c) && (c <=? 8202))
  || (c =? 8232) || (c =? 8233) || (c =? 8239) || (c =? 8287) || (c =? 12288).

(** A literal in which ['] stands for the double quote. *)
Definition qlit (s : string) : str :=
  (fun c : N => if c =? 39 then 34 else c) <$> lit s.

(** [s.lstrip()], [s.rstrip()], [s.strip()]. *)
Fixpoint lstrip (s : str) : str :=
  match s with
  | c :: s' => if is_space c then lstrip s' else s
  | [] => []
  end.

Definition rstrip (s : str) : str := reverse (lstrip (reverse s)).

Definition strip (s : str) : str := rstrip (lstrip s).

(** [s.startswith(p)]. *)
Fixpoint startswith (s p : str) {struct p} : bool :=
  match p with
  | [] => true
  | a :: p' =>
      match s with
      | b :: s' => (a =? b) && startswith s' p'
      | [] => false
      end
  end.

(** [s.replace(old, new)] for a non-empty [old]: one pass from the left; at
    an occurrence of [old] emit [new] and jump over the occurrence, otherwise
    copy one code point.  [skip] counts the code points of the current
    occurrence still to jump over. *)
Fixpoint replace_from (old new : str) (skip : nat) (s : str) : str :=
  match s with
  | [] => []
  | c :: s' =>
      match skip with
      | S k => replace_from old new k s'
      | O =>
          if startswith s old
          then new ++ replace_from old new (pred (length old)) s'
          else c :: replace_from old new O s'
      end
  end.

Definition replace (old new s : str) : str := replace_from old new O s.

(** [s[:n]]. *)
Definition slice_to (n : nat) (s : str) : str := take n s.

(** ** Exceptions *)

(** A raised exception: its class, the classes it derives from, its message
    and, for [json.JSONDecodeError], the [doc] and [pos] attributes. *)
Record exn := Exn {
  exc_class : string;
  exc_bases : list string;
  exc_msg : string;
  exc_doc : option str;
  exc_pos : nat
}.

(** [isinstance(e, cls)], which is what an [except cls:] clause tests. *)
Definition isinstance (e : exn) (cls : string) : bool :=
  String.eqb cls (exc_class e) || existsb (String.eqb cls) (exc_bases e).

Definition ValueError (msg : string) : exn :=
  Exn "ValueError" ["Exception"; "BaseException"] msg None 0.

Definition JSONDecodeError (msg : string) (doc : str) (pos : nat) : exn :=
  Exn "JSONDecodeError" ["ValueError"; "Exception"; "BaseException"]
      msg (Some doc) pos.

Definition UnicodeDecodeError (reason : string) (start : nat) : exn :=
  Exn "UnicodeDecodeError"
      ["UnicodeError"; "ValueError"; "Exception"; "BaseException"]
      reason None start.

Definition RecursionError (msg : string) : exn :=
  Exn "RecursionError" ["RuntimeError"; "Exception"; "BaseException"]
      msg None 0.

(** Some classes of [requests.exceptions]. *)
Definition ReadTimeout (msg : string) : exn :=
  Exn "ReadTimeout"
      ["Timeout"; "RequestException"; "OSError"; "Exception"; "BaseException"]
      msg None 0.

Definition ConnectTimeout (msg : string) : exn :=
  Exn "ConnectTimeout"
      ["ConnectionError"; "Timeout"; "RequestException"; "OSError";
       "Exception"; "BaseException"]
      msg None 0.

Definition ConnectionError (msg : string) : exn :=
  Exn "ConnectionError"
      ["RequestException"; "OSError"; "Exception"; "BaseException"]
      msg None 0.

Definition MissingSchema (msg : string) : exn :=
  Exn "MissingSchema"
      ["RequestException"; "OSError"; "ValueError"; "Exception";
       "BaseException"]
      msg None 0.

(** The result of a call: a value or a raised exception. *)
Inductive result (A : Type) : Type :=
| Ok (a : A)
| Raise (e : exn).
Arguments Ok {A} a.
Arguments Raise {A} e.

(** ** Regular expressions ([re]) *)

(** The fragment of the pattern language the module uses: literals, a
    character set of categories, and the greedy star of a single atom. *)
Inductive set_item :=
| ItLit (c : char)
| ItSpace       (* \s *)
| ItNotSpace.   (* \S *)

Inductive atom :=
| ALit (c : char)
| ASet (items : list set_item).

Inductive node :=
| One (a : atom)
| Star (a : atom).  (* a* , greedy *)

Definition item_accepts (i : set_item) (c : char) : bool :=
  match i with
  | ItLit d => d =? c
  | ItSpace => is_space c
  | ItNotSpace => negb (is_space c)
  end.

Definition atom_accepts (a : atom) (c : char) : bool :=
  match a with
  | ALit d => d =? c
  | ASet items => existsb (fun i => item_accepts i c) items
  end.

(** Backtracking match anchored at the head of [s]: the number of code
    points the first successful alternative consumes.  A star first tries to
    take one more code point and falls back to the rest of the pattern. *)
Fixpoint match_here (p : list node) : str -> option nat :=
  match p with
  | [] => fun _ => Some O
  | One a :: p' => fun s =>
      match s with
      | c :: s' => if atom_accepts a c then S <$> match_here p' s' else None
      | [] => None
      end
  | Star a :: p' =>
      fix star (s : str) : option nat :=
        match s with
        | c :: s' =>
            if atom_accepts a c
            then match star s' with
                 | Some n => Some (S n)
                 | None => match_here p' s
                 end
            else match_here p' s
        | [] => match_here p' []
        end
  end.

(** [re.search(p, s)]: the leftmost start at which the pattern matches;
    the result is [m.group()], the matched text. *)
Fixpoint re_search (p : list node) (s : str) : option str :=
  match match_here p s with
  | Some n => Some (take n s)
  | None =>
      match s with
      | [] => None
      | _ :: s' => re_search p s'
      end
  end.

Definition lbrace : char := 123.
Definition rbrace : char := 125.
Definition backtick : char := 96.

(** The pattern [r"\{[\s\S]*\}"]. *)
Definition json_span_re : list node :=
  [One (ALit lbrace); Star (ASet [ItSpace; ItNotSpace]); One (ALit rbrace)].

(** ** JSON values ([json]) *)

(** What [json.loads] builds: [None], [bool], [int], [float] (kept as the
    number's text), [str], [list], and [dict] as the key/value pairs in
    insertion order. *)
Inductive json :=
| JNull
| JBool (b : bool)
| JInt (z : Z)
| JFloat (lexeme : str)
| JString (s : str)
| JArray (items : list json)
| JObject (members : list (str * json)).


(** How [json.loads] fails on a [str] document: the document is malformed
    at an index ([JSONDecodeError]), an integer literal has more digits than
    the interpreter converts (the limit is 4300 by default), or the nesting
    is deeper than the recursion limit allows, in an array or in an
    object. *)
Inductive loads_error :=
| Malformed (msg : string) (pos : nat)
| IntTooLong (limit digits : nat)
| TooDeep (in_array : bool).

(** The exception [json.loads(doc)] raises for a failure; a
    [JSONDecodeError] carries the document it was given. *)
Definition loads_exception (doc : str) (err : loads_error) : exn :=
  match err with
  | Malformed msg pos => JSONDecodeError msg doc pos
  | IntTooLong limit digits =>
      ValueError
        ("Exceeds the limit (" +:+ pretty limit
         +:+ " digits) for integer string conversion: value has "
         +:+ pretty digits
         +:+ " digits; use sys.set_int_max_str_digits() to increase the limit")
  | TooDeep in_array =>
      RecursionError
        ("maximum recursion depth exceeded while decoding a JSON "
         +:+ (if in_array then "array" else "object")
         +:+ " from a unicode string")
  end.

(** [json.loads] as the module sees it: a document yields a value or one of
    the failures above. *)
Definition decoder := str -> json + loads_error.

Definition call_loads (json_loads : decoder) (doc : str) : result json :=
  match json_loads doc with
  | inl v => Ok v
  | inr err => Raise (loads_exception doc err)
  end.

(** ** safe_json_parse *)

(** [text.replace("```json", "").replace("```", "")] *)
Definition without_fences (text : str) : str :=
  replace (lit "```") [] (replace (lit "```json") [] text).

(** [text.replace("```json", "").replace("```", "").strip()] *)
Definition cleaned (text : str) : str := strip (without_fences text).

Definition safe_json_parse (json_loads : decoder) (text : str) : result json :=
  let cleaned := cleaned text in
  let match_ := re_search json_span_re cleaned in
  match match_ with
  | None => Raise (ValueError "No JSON object found in Gemini output")
  | Some group => call_loads json_loads group
  end.

(** ** State and exceptions *)

(** A computation over a mutable state [S] that returns or raises. *)
Definition M (S A : Type) : Type := S -> result A * S.

Definition ret {S A} (a : A) : M S A := fun s => (Ok a, s).

Definition raise {S A} (e : exn) : M S A := fun s => (Raise e, s).

Definition bind {S A B} (m : M S A) (k : A -> M S B) : M S B :=
  fun s =>
    match m s with
    | (Ok a, s') => k a s'
    | (Raise e, s') => (Raise e, s')
    end.

Definition lift {S A} (r : result A) : M S A := fun s => (r, s).

Notation "x <- m ;; k" := (bind m (fun x => k))
  (at level 90, m at next level, right associativity).
Notation "m ;;; k" := (bind m (fun _ => k))
  (at level 90, right associativity).

(** [try: body  except c1: h1  except c2: h2 ...]: the first clause whose
    class the exception is an instance of handles it, in the state the body
    left behind; an exception raised by a handler is not handled again. *)
Fixpoint handle {S A} (handlers : list (string * (exn -> M S A)))
    (e : exn) : M S A :=
  match handlers with
  | [] => raise e
  | (cls, h) :: rest => if isinstance e cls then h e else handle rest e
  end.

Definition try_except {S A} (body : M S A)
    (handlers : list (string * (exn -> M S A))) : M S A :=
  fun s =>
    match body s with
    | (Raise e, s') => handle handlers e s'
    | r => r
    end.

(** [for x in xs: body x]. *)
Fixpoint for_each {S A} (xs : list A) (body : A -> M S unit) : M S unit :=
  match xs with
  | [] => ret tt
  | x :: xs' => body x ;;; for_each xs' body
  end.

(** ** Uploaded files *)

(** A binary stream: its content and the read position. *)
Record file := File {
  content : bytes;
  position : nat
}.

(** [file.read()]: everything from the read position to the end. *)
Definition file_read : M file bytes :=
  fun f =>
    (Ok (drop (position f) (content f)),
     File (content f) (max (position f) (length (content f)))).

(** ** UTF-8 ([bytes.decode("utf-8")]) *)

Definition is_cont (b : N) : bool := (128 <=? b) && (b <=? 191).

(** Second byte of a three- or four-byte sequence: a continuation byte, in
    the narrower range the lead bytes E0, ED, F0 and F4 require. *)
Definition second_ok (b0 b1 : N) : bool :=
  is_cont b1 &&
  (if b0 =? 224 then 160 <=? b1
   else if b0 =? 237 then b1 <=? 159
   else if b0 =? 240 then 144 <=? b1
   else if b0 =? 244 then b1 <=? 143
   else true).

Definition low6 (b : N) : N := N.land b 63.

(** Prepend a decoded code point to the decoding of the rest. *)
Definition emit_char (c : char) (r : result str) : result str :=
  match r with
  | Ok s => Ok (c :: s)
  | Raise e => Raise e
  end.

(** One step of the strict decoder at byte index [pos]: the sequence at the
    head of [data] is decoded or rejected, and [rest] decodes what follows
    it. *)
Definition utf8_decode_step (rest : nat -> bytes -> result str)
    (pos : nat) (data : bytes) : result str :=
  match data with
  | [] => Ok []
  | x0 :: t0 =>
      let b0 := Byte.to_N x0 in
      let eod := Raise (UnicodeDecodeError "unexpected end of data" pos) in
      let bad := Raise (UnicodeDecodeError "invalid continuation byte" pos) in
      if b0 <? 128 then emit_char b0 (rest (1 + pos)%nat t0)
      else if (b0 <? 194) || (244 <? b0) then
        Raise (UnicodeDecodeError "invalid start byte" pos)
      else
        match t0 with
        | [] => eod
        | x1 :: t1 =>
            let b1 := Byte.to_N x1 in
            if b0 <? 224 then
              if is_cont b1
              then emit_char (N.shiftl (N.land b0 31) 6 + low6 b1)
                     (rest (2 + pos)%nat t1)
              else bad
            else if negb (second_ok b0 b1) then bad
            else
              match t1 with
              | [] => eod
              | x2 :: t2 =>
                  let b2 := Byte.to_N x2 in
                  if negb (is_cont b2) then bad
                  else if b0 <? 240 then
                    emit_char (N.shiftl (N.land b0 15) 12
                               + N.shiftl (low6 b1) 6 + low6 b2)
                      (rest (3 + pos)%nat t2)
                  else
                    match t2 with
                    | [] => eod
                    | x3 :: t3 =>
                        let b3 := Byte.to_N x3 in
                        if is_cont b3
                        then emit_char (N.shiftl (N.land b0 7) 18
                                        + N.shiftl (low6 b1) 12
                                        + N.shiftl (low6 b2) 6 + low6 b3)
                               (rest (4 + pos)%nat t3)
                        else bad
                    end
              end
        end
  end.

Fixpoint utf8_decode_from (pos : nat) (data : bytes) {struct data}
    : result str :=
  utf8_decode_step utf8_decode_from pos data.

Definition utf8_decode (data : bytes) : result str := utf8_decode_from 0 data.

(** [str.encode("utf-8")] on one code point and on a text. *)
Definition byte_of (n : N) : Byte.byte := default Byte.x00 (Byte.of_N n).

Definition utf8_encode_char (c : char) : bytes :=
  if c <? 128 then [byte_of c]
  else if c <? 2048 then
    [byte_of (192 + N.shiftr c 6); byte_of (128 + N.land c 63)]
  else if c <? 65536 then
    [byte_of (224 + N.shiftr c 12);
     byte_of (128 + N.land (N.shiftr c 6) 63);
     byte_of (128 + N.land c 63)]
  else
    [byte_of (240 + N.shiftr c 18);
     byte_of (128 + N.land (N.shiftr c 12) 63);
     byte_of (128 + N.land (N.shiftr c 6) 63);
     byte_of (128 + N.land c 63)].

Definition utf8_encode (s : str) : bytes := concat (utf8_encode_char <$> s).

(** A Unicode scalar value: a code point that is not a surrogate. *)
Definition is_scalar (c : char) : bool :=
  (c <? 55296) || ((57343 <? c) && (c <? 1114112)).

(** ** File helpers *)

(** The two PDF engines.  [pdfplumber] works on the file object and moves
    its read position; [fitz] works on a byte string. *)
Class PdfLibs := {
  plumber_pdf : Type;
  plumber_page : Type;
  fitz_page : Type;
  (* pdfplumber.open(file) *)
  pdfplumber_open : M file plumber_pdf;
  (* pdf.pages *)
  plumber_pages : plumber_pdf -> M file (list plumber_page);
  (* page.extract_text(), None for a page without text *)
  plumber_extract_text : plumber_page -> M file (option str);
  (* fitz.open(stream=data, filetype="pdf"), iterated *)
  fitz_open : bytes -> result (list fitz_page);
  (* page.get_text() *)
  fitz_get_text : fitz_page -> result str
}.

(** The local variables of [extract_text_from_pdf] that outlive the [try]:
    the file argument and the accumulated [text]. *)
Record pdf_frame := Frame {
  fr_file : file;
  fr_text : str
}.

(** Run a computation on the file of the frame. *)
Definition on_file {A} (m : M file A) : M pdf_frame A :=
  fun fr =>
    let '(r, f') := m (fr_file fr) in (r, Frame f' (fr_text fr)).

(** [text += s] *)
Definition text_append (s : str) : M pdf_frame unit :=
  fun fr => (Ok tt, Frame (fr_file fr) (fr_text fr ++ s)).

(** The body of the [try]: the text layer, page by page. *)
Definition pdf_primary `{PdfLibs} : M pdf_frame unit :=
  pdf <- on_file pdfplumber_open ;;
  pages <- on_file (plumber_pages pdf) ;;
  for_each pages (fun page =>
    t <- on_file (plumber_extract_text page) ;;
    text_append (default [] t)).

(** The body of the [except]: the second engine on [file.read()]. *)
Definition pdf_fallback `{PdfLibs} : M pdf_frame unit :=
  data <- on_file file_read ;;
  pdf <- lift (fitz_open data) ;;
  for_each pdf (fun page =>
    t <- lift (fitz_get_text page) ;;
    text_append t).

Definition extract_text_from_pdf `{PdfLibs} : M file str :=
  fun f =>
    let text := [] in
    match try_except pdf_primary [("Exception", fun _ => pdf_fallback)]
            (Frame f text) with
    | (Ok _, fr) => (Ok (strip (fr_text fr)), fr_file fr)
    | (Raise e, fr) => (Raise e, fr_file fr)
    end.

Definition extract_text_from_txt : M file str :=
  data <- file_read ;;
  s <- lift (utf8_decode data) ;;
  ret (strip s).

(** ** Gemini analysis *)

(** The [google.genai] client: [genai.Client(api_key=...)] and
    [client.models.generate_content(model=..., contents=...).text]. *)
Class GenaiLib := {
  genai_client : Type;
  genai_Client : option str -> result genai_client;
  generate_content : genai_client -> string -> str -> result str
}.

(** [requests.post(url, json=payload, timeout=t)]: the response's status
    code, or the exception the call raises. *)
Class RequestsLib (payload : Type) := {
  requests_post : option str -> payload -> nat -> result N
}.

(** What the script does to the outside: the Streamlit calls that report to
    the user and the two outbound calls.  Layout-only calls (titles,
    dividers, columns, spinners, expanders) leave no trace. *)
Record payload := Payload {
  p_candidate_name : str;
  p_company : str;
  p_role : str;
  p_recruiter_email : str;
  p_gemini_result : json
}.

Inductive event :=
| StSuccess (msg : string)
| StWarning (msg : string)
| StError (msg : string)
| StInfo (msg : string)
| StInfoValue (label : string) (v : json)
| StException (e : exn)
| StCode (s : str)
| StJson (v : json)
| StMetric (label : string) (v : json)
| StWrite (v : json)
| StWriteLit (msg : string)
| GenerateContent (model : string) (contents : str)
| RequestsPost (url : option str) (body : payload) (timeout : nat).

Definition emit (ev : event) : M (list event) unit :=
  fun log => (Ok tt, log ++ [ev]).

(** [st.stop()] raises [StopException], which is not an [Exception]. *)
Definition StopException : exn :=
  Exn "StopException" ["ScriptControlException"; "BaseException"] "" None 0.

Definition st_stop {A} : M (list event) A := raise StopException.

Definition nl : str := [10].

(** The text of the lines, each followed by a newline. *)
Definition lines (ls : list str) : str := concat ((fun l => l ++ nl) <$> ls).

Definition triple_quote : str := [34; 34; 34].

(** The literal parts of the f-string around the two interpolations. *)
Definition prompt_head : str :=
  lines [ [];
          lit "STRICT RULES:";
          lit "- Return ONLY valid JSON";
          lit "- Start with { and end with }";
          lit "- No markdown";
          lit "- No explanation";
          [];
          lit "FORMAT:";
          lit "{";
          qlit "  'match_score': 0-100,";
          qlit "  'matched_skills': [],";
          qlit "  'missing_skills': [],";
          qlit "  'experience_fit': 'LOW | MEDIUM | HIGH',";
          qlit "  'recommendation': 'APPLY | SKIP',";
          qlit "  'summary': ''";
          lit "}";
          [];
          lit "RESUME:" ]
  ++ triple_quote.

Definition prompt_middle : str :=
  triple_quote ++ lines [ []; []; lit "JOB DESCRIPTION:" ] ++ triple_quote.

Definition prompt_tail : str := triple_quote ++ nl.

(** The f-string of [analyze_resume_vs_jd]. *)
Definition build_prompt (resume_text jd_text : str) : str :=
  prompt_head ++ slice_to 4000 resume_text
  ++ prompt_middle ++ slice_to 4000 jd_text
  ++ prompt_tail.

Definition analyze_resume_vs_jd `{GenaiLib} (client : genai_client)
    (resume_text jd_text : str) : M (list event) str :=
  let prompt := build_prompt resume_text jd_text in
  emit (GenerateContent "gemini-3-flash-preview" prompt) ;;;
  text <- lift (generate_content client "gemini-3-flash-preview" prompt) ;;
  ret (strip text).

(** ** The Streamlit script *)

Record upload := Upload {
  up_type : string;
  up_file : file
}.

(** The widget values of one run of the script. *)
Record inputs := Inputs {
  candidate_name : str;
  company : str;
  role : str;
  recruiter_email : str;
  resume_file : option upload;
  jd_text : str;
  button : bool
}.

(** Truth value of a [str]. *)
Definition truthy (s : str) : bool :=
  match s with [] => false | _ => true end.

Definition AttributeError (msg : string) : exn :=
  Exn "AttributeError" ["Exception"; "BaseException"] msg None 0.

(** [d.get(key, default)] on a [dict]; other values have no [get]. *)
Fixpoint assoc (key : str) (members : list (str * json)) : option json :=
  match members with
  | [] => None
  | (k, v) :: rest => if bool_decide (k = key) then Some v else assoc key rest
  end.

Definition json_get (d : json) (key : str) (dflt : json) : result json :=
  match d with
  | JObject members => Ok (default dflt (assoc key members))
  | _ => Raise (AttributeError "object has no attribute 'get'")
  end.

(** Lines 165-177: the delivery to the webhook. *)
Definition dispatch `{RequestsLib payload} (N8N_WEBHOOK_URL : option str)
    (body : payload) : M (list event) unit :=
  try_except
    (emit (RequestsPost N8N_WEBHOOK_URL body 5) ;;;
     _ <- lift (requests_post N8N_WEBHOOK_URL body 5) ;;
     emit (StSuccess "✅ Request sent to n8n. Processing in background."))
    [("ReadTimeout", fun _ =>
        emit (StSuccess
                "✅ Request accepted by n8n. Processing in background."));
     ("RequestException", fun e =>
        emit (StError "❌ Failed to reach n8n") ;;;
        emit (StException e) ;;;
        st_stop)].

(** Lines 119-179: what the button triggers. *)
Definition action `{GenaiLib} `{RequestsLib payload} (json_loads : decoder)
    (client : genai_client) (N8N_WEBHOOK_URL : option str)
    (ui : inputs) (resume_text : str) : M (list event) unit :=
  (if truthy (candidate_name ui) && truthy (company ui) && truthy (role ui)
      && truthy (recruiter_email ui) && truthy resume_text
      && truthy (strip (jd_text ui))
   then ret tt
   else emit (StWarning "Please fill all fields and upload resume.") ;;;
        st_stop) ;;;
  raw_output <- analyze_resume_vs_jd client resume_text (jd_text ui) ;;
  emit (StCode raw_output) ;;;
  result_json <-
    try_except
      (lift (safe_json_parse json_loads raw_output))
      [("Exception", fun e =>
          emit (StError "❌ Gemini response is not valid JSON") ;;;
          emit (StException e) ;;;
          st_stop)] ;;
  emit (StSuccess "✅ Gemini JSON Parsed Successfully") ;;;
  emit (StJson result_json) ;;;
  score <- lift (json_get result_json (lit "match_score") (JInt 0)) ;;
  emit (StMetric "Match Score" score) ;;;
  rec <- lift (json_get result_json (lit "recommendation")
                 (JString (lit "N/A"))) ;;
  emit (StInfoValue "Recommendation: " rec) ;;;
  emit (StWriteLit "### Summary") ;;;
  summary <- lift (json_get result_json (lit "summary") (JString [])) ;;
  emit (StWrite summary) ;;;
  let body :=
    Payload (candidate_name ui) (company ui) (role ui) (recruiter_email ui)
            result_json in
  dispatch N8N_WEBHOOK_URL body ;;;
  emit (StInfo "📊 Check Google Sheets & Email for final result").

(** Run a computation on a file from inside the script. *)
Definition with_file {A} (f : file) (m : M file A) : M (list event) A :=
  fun log => (fst (m f), log).

(** The whole module, top to bottom, for one run: [environ] is the process
    environment after [load_dotenv()]. *)
Definition script `{PdfLibs} `{GenaiLib} `{RequestsLib payload}
    (json_loads : decoder) (environ : gmap string str) (ui : inputs)
    : M (list event) unit :=
  let GEMINI_API_KEY := environ !! "GEMINI_API_KEY" in
  let N8N_WEBHOOK_URL := environ !! "N8N_WEBHOOK_URL" in
  client <- lift (genai_Client GEMINI_API_KEY) ;;
  resume_text <-
    match resume_file ui with
    | Some up =>
        t <- (if String.eqb (up_type up) "application/pdf"
              then with_file (up_file up) extract_text_from_pdf
              else with_file (up_file up) extract_text_from_txt) ;;
        emit (StSuccess "Resume loaded") ;;;
        ret t
    | None => ret []
    end ;;
  if button ui
  then action json_loads client N8N_WEBHOOK_URL ui resume_text
  else ret tt.

(** ** Reference libraries *)

Module Ref.

(** *** A JSON decoder after CPython's [json] with its C scanner

    Positions are indices into the document; every function takes the text
    still to read and the index of its first code point.  [max_digits] is
    the interpreter's limit on the digits of an integer literal and [depth]
    the number of nested arrays and objects the recursion limit still
    allows.  [fuel] only bounds the recursion of the definitions: twice the
    length of the document and two is enough, since two calls in a row
    consume at least one code point. *)

Definition parsed (A : Type) : Type := (A * str * nat) + loads_error.

Definition is_ws (c : char) : bool :=
  (c =? 32) || (c =? 9) || (c =? 10) || (c =? 13).

Fixpoint skip_ws (s : str) (pos : nat) : str * nat :=
  match s with
  | c :: s' => if is_ws c then skip_ws s' (S pos) else (s, pos)
  | [] => ([], pos)
  end.

Definition is_digit (c : char) : bool := (48 <=? c) && (c <=? 57).

Definition hex_value (c : char) : option N :=
  if is_digit c then Some (c - 48)
  else if (97 <=? c) && (c <=? 102) then Some (c - 87)
  else if (65 <=? c) && (c <=? 70) then Some (c - 55)
  else None.

(** The four hexadecimal digits of a [\uXXXX] escape. *)
Definition hex4 (s : str) : option (N * str) :=
  match s with
  | a :: b :: c :: d :: rest =>
      match hex_value a, hex_value b, hex_value c, hex_value d with
      | Some x, Some y, Some z, Some w =>
          Some (4096 * x + 256 * y + 16 * z + w, rest)
      | _, _, _, _ => None
      end
  | _ => None
  end.

(** The single-character escapes. *)
Definition backslash (esc : char) : option char :=
  if esc =? 34 then Some 34          (* quote *)
  else if esc =? 92 then Some 92     (* backslash *)
  else if esc =? 47 then Some 47     (* / *)
  else if esc =? 98 then Some 8      (* b *)
  else if esc =? 102 then Some 12    (* f *)
  else if esc =? 110 then Some 10    (* n *)
  else if esc =? 114 then Some 13    (* r *)
  else if esc =? 116 then Some 9     (* t *)
  else None.

(** [scanstring] in strict mode; [s] starts after the opening quote, which
    is at index [begin].  An escape the scanner does not know is reported at
    its backslash, a bad [\uXXXX] at its [u].  The scanner takes four digits
    only when a code point follows them, and looks for the second half of a
    surrogate pair only when seven code points follow the first half. *)
Fixpoint scanstring (fuel : nat) (s : str) (pos begin : nat) (acc : str)
    : parsed str :=
  match fuel with
  | O => inr (Malformed "Unterminated string starting at" begin)
  | S fuel' =>
      match s with
      | [] => inr (Malformed "Unterminated string starting at" begin)
      | c :: s' =>
          if c =? 34 then inl (acc, s', S pos)
          else if c <? 32 then
            inr (Malformed "Invalid control character at" pos)
          else if negb (c =? 92) then
            scanstring fuel' s' (S pos) begin (acc ++ [c])
          else
            match s' with
            | [] => inr (Malformed "Unterminated string starting at" begin)
            | esc :: s'' =>
                if negb (esc =? 117) then
                  match backslash esc with
                  | Some d =>
                      scanstring fuel' s'' (2 + pos)%nat begin (acc ++ [d])
                  | None => inr (Malformed "Invalid \escape" pos)
                  end
                else
                  match hex4 s'' with
                  | Some (uni, (_ :: _) as r) =>
                      let single :=
                        scanstring fuel' r (6 + pos)%nat begin (acc ++ [uni])
                      in
                      if (55296 <=? uni) && (uni <=? 56319)
                         && (6 <? length r)%nat then
                        match r with
                        | 92 :: 117 :: r2 =>
                            match hex4 r2 with
                            | None =>
                                inr (Malformed "Invalid \uXXXX escape"
                                       (7 + pos)%nat)
                            | Some (uni2, r3) =>
                                if (56320 <=? uni2) && (uni2 <=? 57343) then
                                  scanstring fuel' r3 (12 + pos)%nat begin
                                    (acc ++ [65536 + (N.lor
                                       (N.shiftl (uni - 55296) 10)
                                       (uni2 - 56320))])
                                else single
                            end
                        | _ => single
                        end
                      else single
                  | _ => inr (Malformed "Invalid \uXXXX escape" (S pos))
                  end
            end
      end
  end.

(** Longest prefix of decimal digits. *)
Fixpoint span_digits (s : str) : str * str :=
  match s with
  | c :: s' =>
      if is_digit c
      then let '(ds, rest) := span_digits s' in (c :: ds, rest)
      else ([], s)
  | [] => ([], [])
  end.

Definition digits_value (ds : str) : Z :=
  fold_left (fun acc c => (10 * acc + Z.of_N (c - 48))%Z) ds 0%Z.

(** A number: an integer part, then an optional fraction and an optional
    exponent, each taken only when at least one digit follows.  Without
    fraction and exponent it is converted by [int], which refuses more than
    [max_digits] digits. *)
Definition match_number (max_digits : nat) (s : str)
    : option (parsed json) :=
  let '(neg, s1) :=
    match s with
    | 45 :: t => (true, t)
    | _ => (false, s)
    end in
  let int_part : option (str * str) :=
    match s1 with
    | 48 :: t => Some ([48], t)
    | c :: _ => if is_digit c then Some (span_digits s1) else None
    | [] => None
    end in
  match int_part with
  | None => None
  | Some (ds, s2) =>
      let '(frac, s3) :=
        match s2 with
        | 46 :: t =>
            match span_digits t with
            | ([], _) => ([], s2)
            | (fs, rest) => (46 :: fs, rest)
            end
        | _ => ([], s2)
        end in
      let '(exp, s4) :=
        match s3 with
        | e :: t =>
            if (e =? 101) || (e =? 69) then
              let '(sign, t') :=
                match t with
                | 43 :: u => ([43], u)
                | 45 :: u => ([45], u)
                | _ => ([], t)
                end in
              match span_digits t' with
              | ([], _) => ([], s3)
              | (es, rest) => (e :: sign ++ es, rest)
              end
            else ([], s3)
        | [] => ([], s3)
        end in
      let sign := if neg : bool then [45] else [] in
      let lexeme := sign ++ ds ++ frac ++ exp in
      match frac, exp with
      | [], [] =>
          if (max_digits <? length ds)%nat
          then Some (inr (IntTooLong max_digits (length ds)))
          else
            Some (inl (JInt (if neg then - digits_value ds
                             else digits_value ds)%Z,
                       s4, length lexeme))
      | _, _ => Some (inl (JFloat lexeme, s4, length lexeme))
      end
  end.

(** [dict(pairs)]: a repeated key keeps its first place and takes the last
    value. *)
Fixpoint dict_set (key : str) (v : json) (members : list (str * json))
    : list (str * json) :=
  match members with
  | [] => [(key, v)]
  | (k, w) :: rest =>
      if bool_decide (k = key) then (k, v) :: rest
      else (k, w) :: dict_set key v rest
  end.

Definition dict_of_pairs (pairs : list (str * json)) : list (str * json) :=
  fold_left (fun d kv => dict_set kv.1 kv.2 d) pairs [].

(** Try the keyword [kw] at the head of [s]. *)
Definition keyword (kw : string) (v : json) (s : str) (pos : nat)
    : option (json * str * nat) :=
  if startswith s (lit kw)
  then Some (v, drop (length (lit kw)) s, (pos + length (lit kw))%nat)
  else None.

Definition first_some {A} (os : list (option A)) : option A :=
  match omap id os with
  | a :: _ => Some a
  | [] => None
  end.

(** [scan_once] and the object and array parsers.  Entering an object or an
    array takes one level of [depth].  [members] continues an object after
    the opening quote of a key; [items] continues an array at the start of
    a value. *)
Fixpoint scan_once (max_digits fuel depth : nat) (s : str) (pos : nat)
    : parsed json :=
  match fuel with
  | O => inr (Malformed "Expecting value" pos)
  | S fuel' =>
      match s with
      | [] => inr (Malformed "Expecting value" pos)
      | c :: s' =>
          if c =? 34 then
            match scanstring (length s') s' (S pos) pos [] with
            | inl (str_, r, p) => inl (JString str_, r, p)
            | inr e => inr e
            end
          else if c =? 123 then
            match depth with
            | O => inr (TooDeep false)
            | S depth' =>
                let '(s1, p1) := skip_ws s' (S pos) in
                match s1 with
                | 125 :: r => inl (JObject [], r, S p1)
                | 34 :: r => members max_digits fuel' depth' r (S p1) p1 []
                | _ =>
                    inr (Malformed
                           "Expecting property name enclosed in double quotes"
                           p1)
                end
            end
          else if c =? 91 then
            match depth with
            | O => inr (TooDeep true)
            | S depth' =>
                let '(s1, p1) := skip_ws s' (S pos) in
                match s1 with
                | 93 :: r => inl (JArray [], r, S p1)
                | _ => items max_digits fuel' depth' s1 p1 []
                end
            end
          else
            match
              first_some
                [ keyword "null" JNull s pos;
                  keyword "true" (JBool true) s pos;
                  keyword "false" (JBool false) s pos ]
            with
            | Some r => inl r
            | None =>
                match match_number max_digits s with
                | Some (inl (v, r, n)) => inl (v, r, (pos + n)%nat)
                | Some (inr e) => inr e
                | None =>
                    match
                      first_some
                        [ keyword "NaN" (JFloat (lit "NaN")) s pos;
                          keyword "Infinity" (JFloat (lit "Infinity")) s pos;
                          keyword "-Infinity" (JFloat (lit "-Infinity"))
                            s pos ]
                    with
                    | Some r => inl r
                    | None => inr (Malformed "Expecting value" pos)
                    end
                end
            end
      end
  end
with members (max_digits fuel depth : nat) (s : str) (pos begin : nat)
    (pairs : list (str * json)) : parsed json :=
  match fuel with
  | O => inr (Malformed "Expecting value" pos)
  | S fuel' =>
      match scanstring (length s) s pos begin [] with
      | inr e => inr e
      | inl (key, s1, p1) =>
          let '(s2, p2) := skip_ws s1 p1 in
          match s2 with
          | 58 :: s3 =>
              let '(s4, p4) := skip_ws s3 (S p2) in
              match scan_once max_digits fuel' depth s4 p4 with
              | inr e => inr e
              | inl (value, s5, p5) =>
                  let pairs' := pairs ++ [(key, value)] in
                  let '(s6, p6) := skip_ws s5 p5 in
                  match s6 with
                  | 125 :: r => inl (JObject (dict_of_pairs pairs'), r, S p6)
                  | 44 :: s7 =>
                      let '(s8, p8) := skip_ws s7 (S p6) in
                      match s8 with
                      | 34 :: s9 =>
                          members max_digits fuel' depth s9 (S p8) p8 pairs'
                      | _ =>
                          inr (Malformed
                                 "Expecting property name enclosed in double quotes"
                                 p8)
                      end
                  | _ => inr (Malformed "Expecting ',' delimiter" p6)
                  end
              end
          | _ => inr (Malformed "Expecting ':' delimiter" p2)
          end
      end
  end
with items (max_digits fuel depth : nat) (s : str) (pos : nat)
    (values : list json) : parsed json :=
  match fuel with
  | O => inr (Malformed "Expecting value" pos)
  | S fuel' =>
      match scan_once max_digits fuel' depth s pos with
      | inr e => inr e
      | inl (value, s1, p1) =>
          let values' := values ++ [value] in
          let '(s2, p2) := skip_ws s1 p1 in
          match s2 with
          | 93 :: r => inl (JArray values', r, S p2)
          | 44 :: s3 =>
              let '(s4, p4) := skip_ws s3 (S p2) in
              items max_digits fuel' depth s4 p4 values'
          | _ => inr (Malformed "Expecting ',' delimiter" p2)
          end
      end
  end.

(** [json.loads(doc)] for a [str] document, under the two limits. *)
Definition loads (max_digits depth : nat) (doc : str) : json + loads_error :=
  match doc with
  | 65279 :: _ =>
      inr (Malformed "Unexpected UTF-8 BOM (decode using utf-8-sig)" O)
  | _ =>
      let '(s0, p0) := skip_ws doc O in
      match scan_once max_digits (2 * length doc + 2) depth s0 p0 with
      | inr e => inr e
      | inl (v, s1, p1) =>
          let '(s2, p2) := skip_ws s1 p1 in
          match s2 with
          | [] => inl v
          | _ => inr (Malformed "Extra data" p2)
          end
      end
  end.

(** The interpreter's defaults: 4300 digits, and the 993 levels that the
    recursion limit of 1000 leaves to [json.loads] when it is called from a
    function called by a script; a deeper call stack leaves fewer. *)
Definition json_loads : decoder := loads 4300 993.

(** A document that is JSON text, whatever the limits: no limit is reached
    when both are the length of the document. *)
Definition well_formed (doc : str) : bool :=
  match loads (length doc) (length doc) doc with
  | inl _ => true
  | inr _ => false
  end.

End Ref.

(** *** Engines that replay a scenario *)

Module Scripted.

(** A PDF whose pages are given with the outcome of reading each; opening
    it with [pdfplumber] moves the read position by [advance] bytes. *)
Definition pdf_libs (opened : result (list (result (option str))))
    (advance : nat) (second : bytes -> result (list (result str)))
    : PdfLibs :=
  {| plumber_pdf := list (result (option str));
     plumber_page := result (option str);
     fitz_page := result str;
     pdfplumber_open :=
       fun f => (opened, File (content f) (position f + advance));
     plumber_pages := fun pdf => ret pdf;
     plumber_extract_text := fun page => lift page;
     fitz_open := second;
     fitz_get_text := fun page => page |}.

(** A model client that refuses a missing key, as [genai.Client] does, and
    answers every prompt with [reply]. *)
Definition genai (reply : result str) : GenaiLib :=
  {| genai_client := str;
     genai_Client := fun key =>
       match key with
       | Some k => Ok k
       | None => Raise (ValueError "Missing key inputs argument!")
       end;
     generate_content := fun _ _ _ => reply |}.

(** A webhook: a missing URL is refused with [MissingSchema], as
    [requests] does; any other call has the given outcome. *)
Definition requests (outcome : result N) : RequestsLib payload :=
  {| requests_post := fun url _ _ =>
       match url with
       | Some _ => outcome
       | None => Raise (MissingSchema "Invalid URL 'None': No scheme supplied.")
       end |}.

End Scripted.

(** ** The specification's words *)

(** [s] contains [p] ([p in s]). *)
Fixpoint contains (s p : str) : bool :=
  startswith s p ||
  match s with
  | [] => false
  | _ :: s' => contains s' p
  end.

(** Index of the first occurrence of a code point. *)
Fixpoint find_first (c : char) (s : str) : option nat :=
  match s with
  | [] => None
  | x :: s' => if x =? c then Some O else S <$> find_first c s'
  end.

(** Index of the last occurrence of a code point. *)
Fixpoint find_last (c : char) (s : str) : option nat :=
  match s with
  | [] => None
  | x :: s' =>
      match find_last c s' with
      | Some j => Some (S j)
      | None => if x =? c then Some O else None
      end
  end.

(** The substring that starts at the first opening brace and ends at the
    last closing brace, when the former comes before the latter. *)
Definition brace_span (s : str) : option str :=
  match find_first lbrace s, find_last rbrace s with
  | Some i, Some j =>
      if (i <? j)%nat then Some (take (S j - i) (drop i s)) else None
  | _, _ => None
  end.

(** [t] is [s] without its leading and trailing whitespace. *)
Definition trimmed (s t : str) : Prop :=
  exists l r,
    s = l ++ t ++ r /\
    forallb is_space l = true /\ forallb is_space r = true /\
    (forall c, head t = Some c -> is_space c = false) /\
    (forall c, last t = Some c -> is_space c = false).

(** An exception that reaches the caller does so as an [ExtractionError]. *)
Definition surfaces_as_ExtractionError {A} (r : result A) : Prop :=
  match r with
  | Ok _ => True
  | Raise e => isinstance e "ExtractionError" = true
  end.

(** The outbound calls of a pipeline run. *)
Definition pipeline_event (ev : event) : bool :=
  match ev with
  | GenerateContent _ _ | RequestsPost _ _ _ => true
  | _ => false
  end.

(** A delivery attempted without a URL. *)
Definition posts_without_url (ev : event) : bool :=
  match ev with RequestsPost None _ _ => true | _ => false end.

(** Delivery attempts recorded in a log. *)
Definition is_attempt (ev : event) : bool :=
  match ev with RequestsPost _ _ _ => true | _ => false end.

Fixpoint attempts (log : list event) : nat :=
  match log with
  | [] => O
  | ev :: rest => ((if is_attempt ev then 1 else 0) + attempts rest)%nat
  end.

(** Model calls recorded in a log. *)
Definition is_model_call (ev : event) : bool :=
  match ev with GenerateContent _ _ => true | _ => false end.

Fixpoint model_calls (log : list event) : nat :=
  match log with
  | [] => O
  | ev :: rest => ((if is_model_call ev then 1 else 0) + model_calls rest)%nat
  end.

(** The form test of line 121. *)
Definition form_filled (ui : inputs) (resume_text : str) : bool :=
  truthy (candidate_name ui) && truthy (company ui) && truthy (role ui)
  && truthy (recruiter_email ui) && truthy resume_text
  && truthy (strip (jd_text ui)).

(** The first engine reads the pages one after the other, each from the
    file as the page before left it. *)
Inductive plumber_reads `{PdfLibs}
    : list plumber_page -> file -> list (option str) -> file -> Prop :=
| reads_nil (f : file) : plumber_reads [] f [] f
| reads_cons (p : plumber_page) (ps : list plumber_page) (f f' f'' : file)
    (t : option str) (ts : list (option str)) :
    plumber_extract_text p f = (Ok t, f') ->
    plumber_reads ps f' ts f'' ->
    plumber_reads (p :: ps) f (t :: ts) f''.

(** A computation that only adds to the log. *)
Definition appends {A} (m : M (list event) A) : Prop :=
  forall log, exists evs, (m log).2 = log ++ evs.

(** A message that reports success. *)
Definition reports_success (ev : event) : bool :=
  match ev with StSuccess _ => true | _ => false end.

(** * Properties *)

#[local] Arguments N.eqb : simpl never.
#[local] Arguments N.ltb : simpl never.
#[local] Arguments N.leb : simpl never.

(** ** Strings *)

Lemma startswith_app (p r : str) : startswith (p ++ r) p = true.
Proof.
  induction p as [|a p IH]; simpl; [done|].
  by rewrite N.eqb_refl, IH.
Qed.

Lemma startswith_split (s p : str) :
  startswith s p = true -> exists r, s = p ++ r.
Proof.
  revert s. induction p as [|a p IH]; intros s Hs; simpl in *.
  - by exists s.
  - destruct s as [|b s]; [done|].
    apply andb_prop in Hs as [Hab Hs]. apply N.eqb_eq in Hab as ->.
    destruct (IH _ Hs) as [r ->]. by exists r.
Qed.

(** A separator outside the pattern stops every occurrence before it. *)
Lemma startswith_sep (p a b : str) (c : char) :
  c ∉ p -> startswith (a ++ c :: b) p = startswith a p.
Proof.
  revert a. induction p as [|x p IH]; intros a Hc; [by destruct a|].
  apply not_elem_of_cons in Hc as [Hcx Hc].
  destruct a as [|y a]; simpl.
  - destruct (N.eqb_spec x c); [congruence|done].
  - by rewrite IH.
Qed.

Lemma replace_from_skip (old new : str) (k : nat) (s : str) :
  replace_from old new k s = replace old new (drop k s).
Proof.
  revert k. induction s as [|c s IH]; intros k.
  - by destruct k.
  - destruct k as [|k]; [done|]. simpl. apply IH.
Qed.

Lemma replace_miss (old new : str) (c : char) (s : str) :
  startswith (c :: s) old = false ->
  replace old new (c :: s) = c :: replace old new s.
Proof. intros H. unfold replace. simpl replace_from. by rewrite H. Qed.

Lemma replace_hit (x : char) (old new r : str) :
  replace (x :: old) new ((x :: old) ++ r) = new ++ replace (x :: old) new r.
Proof.
  unfold replace at 1. simpl replace_from.
  rewrite N.eqb_refl, startswith_app. simpl.
  rewrite replace_from_skip. by rewrite drop_app_length.
Qed.

(** Replacement works independently on the two sides of a code point that
    the pattern does not contain. *)
Lemma replace_sep (x : char) (old new a b : str) (c : char) :
  c ∉ x :: old ->
  replace (x :: old) new (a ++ c :: b)
  = replace (x :: old) new a ++ c :: replace (x :: old) new b.
Proof.
  intros Hc. remember (length a) as n eqn:Hn.
  revert a Hn. induction n as [n IH] using lt_wf_ind. intros a Hn.
  destruct a as [|y a].
  - simpl app. rewrite replace_miss; [done|].
    change (c :: b) with ([] ++ c :: b). by rewrite startswith_sep.
  - destruct (startswith (y :: a) (x :: old)) eqn:Hs.
    + destruct (startswith_split _ _ Hs) as [r Hr]. rewrite Hr.
      rewrite <- app_assoc. rewrite !replace_hit.
      rewrite (IH (length r)); [by rewrite app_assoc| |done].
      rewrite Hn, Hr. rewrite length_app. simpl. lia.
    + rewrite <- app_comm_cons. rewrite !replace_miss; try done.
      * rewrite (IH (length a)); [done| |done]. rewrite Hn. simpl. lia.
      * rewrite app_comm_cons. by rewrite startswith_sep.
Qed.


Lemma contains_cons (c : char) (s p : str) :
  contains (c :: s) p = startswith (c :: s) p || contains s p.
Proof. done. Qed.

(** Without an occurrence there is nothing to replace. *)
Lemma replace_absent (old new s : str) :
  contains s old = false -> replace old new s = s.
Proof.
  induction s as [|c s IH]; intros H; [done|].
  rewrite contains_cons in H. apply orb_false_elim in H as [H1 H2].
  rewrite replace_miss by done. by rewrite IH.
Qed.

Lemma contains_spec (s p : str) :
  contains s p = true <-> exists a b, s = a ++ p ++ b.
Proof.
  split.
  - induction s as [|c s IH]; simpl.
    + rewrite orb_false_r. intros H. apply startswith_split in H as [r ->].
      by exists [], r.
    + intros H. apply orb_prop in H as [H|H].
      * apply startswith_split in H as [r ->]. by exists [], r.
      * destruct (IH H) as (a & b & ->). by exists (c :: a), b.
  - intros (a & b & ->). induction a as [|c a IH].
    + simpl app. destruct (p ++ b) eqn:E.
      * simpl. destruct p; [done|done].
      * rewrite contains_cons, <- E, startswith_app. done.
    + simpl app. rewrite contains_cons, IH. apply orb_true_r.
Qed.

Lemma contains_infix (a s b p : str) :
  contains (a ++ s ++ b) p = false -> contains s p = false.
Proof.
  intros H. destruct (contains s p) eqn:E; [|done].
  apply contains_spec in E as (a' & b' & ->).
  assert (contains (a ++ (a' ++ p ++ b') ++ b) p = true) as H'; [|congruence].
  apply contains_spec. exists (a ++ a'), (b' ++ b).
  by rewrite <- !app_assoc.
Qed.

Lemma contains_longer (s p q : str) :
  contains s p = false -> contains s (p ++ q) = false.
Proof.
  intros H. destruct (contains s (p ++ q)) eqn:E; [|done].
  apply contains_spec in E as (a & b & ->).
  assert (contains (a ++ (p ++ q) ++ b) p = true) as H'; [|congruence].
  apply contains_spec. exists a, (q ++ b). by rewrite <- !app_assoc.
Qed.

(** ** Stripping *)

Lemma lstrip_split (s : str) :
  exists l, s = l ++ lstrip s /\ forallb is_space l = true.
Proof.
  induction s as [|c s (l & Hl & Hsp)]; [by exists []|].
  simpl. destruct (is_space c) eqn:E.
  - exists (c :: l). simpl. rewrite E, Hsp. by rewrite <- Hl.
  - by exists [].
Qed.

Lemma lstrip_head (s : str) (c : char) :
  head (lstrip s) = Some c -> is_space c = false.
Proof.
  induction s as [|x s IH]; simpl; [done|].
  destruct (is_space x) eqn:E; [done|]. simpl. by intros [= <-].
Qed.

(** Stripping on the left stops at the first code point that is not
    whitespace. *)
Lemma lstrip_app (a b : str) (c : char) :
  is_space c = false -> lstrip (a ++ c :: b) = lstrip a ++ c :: b.
Proof.
  intros Hc. induction a as [|x a IH]; simpl.
  - by rewrite Hc.
  - by destruct (is_space x).
Qed.

Lemma rstrip_app (a b : str) (c : char) :
  is_space c = false -> rstrip (a ++ c :: b) = a ++ c :: rstrip b.
Proof.
  intros Hc. unfold rstrip.
  rewrite reverse_app, reverse_cons, <- app_assoc. simpl.
  rewrite lstrip_app by done.
  rewrite reverse_app, reverse_cons, reverse_involutive.
  by rewrite <- app_assoc.
Qed.

Lemma rstrip_split (s : str) :
  exists r, s = rstrip s ++ r /\ forallb is_space r = true.
Proof.
  destruct (lstrip_split (reverse s)) as (l & Hl & Hsp).
  exists (reverse l). split.
  - unfold rstrip. rewrite <- reverse_app, <- Hl.
    by rewrite reverse_involutive.
  - apply forallb_forall. intros x Hx.
    apply list_elem_of_In in Hx. rewrite elem_of_reverse in Hx.
    apply (proj1 (forallb_forall _ _) Hsp). by apply list_elem_of_In.
Qed.

Lemma rstrip_last (s : str) (c : char) :
  last (rstrip s) = Some c -> is_space c = false.
Proof.
  unfold rstrip. rewrite last_reverse. apply lstrip_head.
Qed.

Lemma rstrip_head (s : str) (c : char) :
  (forall x, head s = Some x -> is_space x = false) ->
  head (rstrip s) = Some c -> is_space c = false.
Proof.
  intros Hs Hc. destruct s as [|x s]; [done|].
  specialize (Hs x eq_refl).
  change (x :: s) with ([] ++ x :: s) in Hc.
  rewrite rstrip_app in Hc by done. simpl in Hc. by injection Hc as <-.
Qed.

(** [strip] removes the whitespace at both ends and nothing else. *)
Lemma strip_trimmed (s : str) : trimmed s (strip s).
Proof.
  destruct (lstrip_split s) as (l & Hl & Hlsp).
  destruct (rstrip_split (lstrip s)) as (r & Hr & Hrsp).
  exists l, r. repeat split; try done.
  - unfold strip. by rewrite <- Hr.
  - intros c. apply rstrip_head. apply lstrip_head.
  - apply rstrip_last.
Qed.



Lemma brace_not_space : is_space lbrace = false /\ is_space rbrace = false.
Proof. done. Qed.

(** Stripping a text that holds a brace pair touches only what is outside
    the pair. *)
Lemma strip_around_braces (a m c : str) :
  strip (a ++ lbrace :: m ++ rbrace :: c)
  = lstrip a ++ lbrace :: m ++ rbrace :: rstrip c.
Proof.
  unfold strip. rewrite lstrip_app by done.
  rewrite app_comm_cons, app_assoc. rewrite rstrip_app by done.
  by rewrite <- app_assoc.
Qed.

(** ** The pattern and the brace span *)

Lemma any_accepts (c : char) :
  atom_accepts (ASet [ItSpace; ItNotSpace]) c = true.
Proof. simpl. by destruct (is_space c). Qed.

(** The greedy star followed by the closing brace runs to the last closing
    brace. *)
Lemma star_to_last_rbrace (s : str) :
  match_here [Star (ASet [ItSpace; ItNotSpace]); One (ALit rbrace)] s
  = S <$> find_last rbrace s.
Proof.
  induction s as [|c s IH]; [done|].
  change (match_here [Star (ASet [ItSpace; ItNotSpace]); One (ALit rbrace)]
            (c :: s))
    with (if atom_accepts (ASet [ItSpace; ItNotSpace]) c
          then match match_here
                       [Star (ASet [ItSpace; ItNotSpace]); One (ALit rbrace)] s
               with
               | Some n => Some (S n)
               | None => match_here [One (ALit rbrace)] (c :: s)
               end
          else match_here [One (ALit rbrace)] (c :: s)).
  rewrite any_accepts, IH. simpl.
  destruct (find_last rbrace s) as [j|]; simpl; [done|].
  rewrite (N.eqb_sym c). by destruct (rbrace =? c).
Qed.

Lemma match_here_span (s : str) :
  match_here json_span_re s
  = match s with
    | c :: s' =>
        if lbrace =? c then S <$> (S <$> find_last rbrace s') else None
    | [] => None
    end.
Proof.
  destruct s as [|c s]; [done|].
  change (match_here json_span_re (c :: s))
    with (if atom_accepts (ALit lbrace) c
          then S <$> match_here
                 [Star (ASet [ItSpace; ItNotSpace]); One (ALit rbrace)] s
          else None).
  by rewrite star_to_last_rbrace.
Qed.

Lemma re_search_needs_rbrace (s : str) :
  find_last rbrace s = None -> re_search json_span_re s = None.
Proof.
  induction s as [|c s IH]; [done|]. intros H.
  simpl in H. destruct (find_last rbrace s) eqn:E; [done|].
  change (re_search json_span_re (c :: s))
    with (match match_here json_span_re (c :: s) with
          | Some n => Some (take n (c :: s))
          | None => re_search json_span_re s
          end).
  rewrite match_here_span, E. simpl.
  destruct (lbrace =? c); by apply IH.
Qed.

(** What the pattern finds is the span from the first opening brace to the
    last closing brace. *)
Lemma re_search_brace_span (s : str) :
  re_search json_span_re s = brace_span s.
Proof.
  induction s as [|c s IH]; [done|].
  change (re_search json_span_re (c :: s))
    with (match match_here json_span_re (c :: s) with
          | Some n => Some (take n (c :: s))
          | None => re_search json_span_re s
          end).
  rewrite match_here_span. unfold brace_span. simpl find_first.
  simpl find_last. rewrite (N.eqb_sym c).
  destruct (N.eqb_spec lbrace c) as [<-|Hne].
  - destruct (find_last rbrace s) as [j|] eqn:E; simpl.
    + done.
    + by apply re_search_needs_rbrace.
  - rewrite IH. unfold brace_span.
    destruct (find_first lbrace s) as [i|] eqn:Ei; simpl; [|done].
    destruct (find_last rbrace s) as [j|] eqn:Ej; simpl.
    + done.
    + by destruct (c =? rbrace).
Qed.

Lemma find_first_app (c : char) (a b : str) :
  c ∉ a -> find_first c (a ++ c :: b) = Some (length a).
Proof.
  induction a as [|x a IH]; intros H; simpl.
  - by rewrite N.eqb_refl.
  - apply not_elem_of_cons in H as [Hx H].
    destruct (N.eqb_spec x c); [congruence|]. by rewrite IH.
Qed.

Lemma find_last_absent (c : char) (s : str) :
  c ∉ s -> find_last c s = None.
Proof.
  induction s as [|x s IH]; intros H; simpl; [done|].
  apply not_elem_of_cons in H as [Hx H]. rewrite IH by done.
  destruct (N.eqb_spec x c); [congruence|done].
Qed.

Lemma find_last_app (c : char) (a b : str) :
  c ∉ b -> find_last c (a ++ c :: b) = Some (length a).
Proof.
  intros H. induction a as [|x a IH]; simpl.
  - by rewrite find_last_absent, N.eqb_refl.
  - by rewrite IH.
Qed.

(** A text with an opening brace that has no opening brace before it and a
    closing brace that has no closing brace after it. *)
Lemma brace_span_app (a m c : str) :
  lbrace ∉ a -> rbrace ∉ c ->
  brace_span (a ++ lbrace :: m ++ rbrace :: c) = Some (lbrace :: m ++ [rbrace]).
Proof.
  intros Ha Hc. unfold brace_span.
  rewrite find_first_app by done.
  rewrite (app_comm_cons m), app_assoc, find_last_app by done.
  rewrite length_app. simpl length.
  destruct (Nat.ltb_spec (length a) (length a + S (length m))); [|lia].
  rewrite <- app_assoc, drop_app_length. f_equal.
  replace (S (length a + S (length m)) - length a)%nat
    with (length (lbrace :: m ++ [rbrace])).
  - rewrite <- app_comm_cons.
    change (lbrace :: m ++ rbrace :: c) with ((lbrace :: m) ++ [rbrace] ++ c).
    rewrite app_assoc. by rewrite take_app_length.
  - simpl. rewrite length_app. simpl. lia.
Qed.

(** ** Fence markers *)

Lemma fence_lit : lit "```" = [backtick; backtick; backtick].
Proof. reflexivity. Qed.

Lemma fence_json_lit :
  lit "```json" = [backtick; backtick; backtick] ++ lit "json".
Proof. reflexivity. Qed.

(** The fences are removed on each side of a brace separately. *)
Lemma without_fences_sep (a b : str) (c : char) :
  c ∉ lit "```json" ->
  without_fences (a ++ c :: b) = without_fences a ++ c :: without_fences b.
Proof.
  intros Hc. unfold without_fences.
  assert (c ∉ lit "```") as Hc'.
  { intros H. apply Hc. rewrite fence_json_lit, <- fence_lit.
    apply elem_of_app. by left. }
  revert Hc Hc'. rewrite fence_lit.
  change (lit "```json") with (backtick :: lit "``json").
  intros Hc Hc'. by rewrite !replace_sep.
Qed.


Lemma without_fences_absent (s : str) :
  contains s (lit "```") = false -> without_fences s = s.
Proof.
  intros H. unfold without_fences.
  rewrite (replace_absent (lit "```json")).
  - by apply replace_absent.
  - rewrite fence_json_lit, <- fence_lit. by apply contains_longer.
Qed.

Lemma braces_not_in_fence :
  (lbrace ∉ lit "```json") /\ (rbrace ∉ lit "```json").
Proof. split; apply (bool_decide_unpack _); by vm_compute. Qed.

(** The cleaned text around a brace pair. *)
Lemma cleaned_around_braces (a m c : str) :
  cleaned (a ++ lbrace :: m ++ rbrace :: c)
  = lstrip (without_fences a) ++ lbrace :: without_fences m
    ++ rbrace :: rstrip (without_fences c).
Proof.
  destruct braces_not_in_fence as [Hl Hr]. unfold cleaned.
  rewrite without_fences_sep by done.
  rewrite without_fences_sep by done.
  apply strip_around_braces.
Qed.

(** One pass over a run of backticks leaves fewer than three of them. *)
Lemma replace_fence_head (s t : str) :
  (forall u, s <> backtick :: u) ->
  replace [backtick; backtick; backtick] [] s <> backtick :: t.
Proof.
  intros Hs. destruct s as [|d s]; [done|].
  rewrite replace_miss.
  - intros [= -> _]. by apply (Hs s).
  - simpl. destruct (N.eqb_spec backtick d) as [<-|]; [|done].
    by destruct (Hs s).
Qed.

Lemma replace_fence_clean (s : str) :
  contains (replace [backtick; backtick; backtick] [] s)
           [backtick; backtick; backtick] = false.
Proof.
  remember (length s) as n eqn:Hn.
  revert s Hn. induction n as [n IH] using lt_wf_ind. intros s Hn.
  destruct s as [|c s]; [done|].
  destruct (startswith (c :: s) [backtick; backtick; backtick]) eqn:Hs.
  - destruct (startswith_split _ _ Hs) as [r Hr]. rewrite Hr.
    rewrite replace_hit. simpl app. eapply IH; [|done].
    rewrite Hn, Hr. simpl. lia.
  - rewrite replace_miss by done. rewrite contains_cons.
    rewrite (IH (length s)); [|rewrite Hn; simpl; lia|done].
    rewrite orb_false_r.
    destruct (startswith (c :: replace [backtick; backtick; backtick] [] s)
                [backtick; backtick; backtick]) eqn:Hr; [|done].
    exfalso. apply startswith_split in Hr as [r Hr].
    injection Hr as -> Hr.
    destruct s as [|d s]; [done|].
    destruct (N.eq_dec d backtick) as [->|Hd].
    + assert (forall u, s <> backtick :: u) as Hu.
      { intros u ->. by vm_compute in Hs. }
      rewrite replace_miss in Hr.
      * injection Hr as Hr. by apply replace_fence_head in Hr.
      * simpl. destruct s as [|e s]; [done|].
        destruct (N.eqb_spec backtick e) as [<-|]; [|done].
        by destruct (Hu s).
    + apply replace_fence_head in Hr; [done|]. intros u [= -> _]. done.
Qed.

Lemma without_fences_clean (text : str) :
  contains (without_fences text) (lit "```") = false.
Proof. unfold without_fences. rewrite fence_lit. apply replace_fence_clean. Qed.

Lemma strip_infix (s : str) : exists l r, s = l ++ strip s ++ r.
Proof. destruct (strip_trimmed s) as (l & r & H & _). by exists l, r. Qed.

(** ** safe_json_parse *)

Lemma safe_json_parse_unfold (json_loads : decoder) (text : str) :
  safe_json_parse json_loads text
  = match brace_span (cleaned text) with
    | Some span => call_loads json_loads span
    | None => Raise (ValueError "No JSON object found in Gemini output")
    end.
Proof. unfold safe_json_parse. by rewrite re_search_brace_span. Qed.

(** C2.  Whatever the text, [safe_json_parse] hands to the decoder exactly
    the part of the fence-stripped, trimmed text that runs from its first
    opening brace to its last closing brace, newlines included; when the
    text holds two brace blocks, that part runs from the opening brace of
    the first block to the closing brace of the second, with the prose
    between them. *)
Theorem safe_json_parse_operates_on_span (json_loads : decoder) (text : str) :
  safe_json_parse json_loads text
  = match brace_span (cleaned text) with
    | Some span => call_loads json_loads span
    | None => Raise (ValueError "No JSON object found in Gemini output")
    end
  /\ forall a b1 mid b2 c : str,
       lbrace ∉ a -> rbrace ∉ c ->
       cleaned text
       = a ++ lbrace :: b1 ++ rbrace :: mid ++ lbrace :: b2 ++ rbrace :: c ->
       safe_json_parse json_loads text
       = call_loads json_loads
           (lbrace :: b1 ++ rbrace :: mid ++ lbrace :: b2 ++ [rbrace]).
Proof.
  split; [apply safe_json_parse_unfold|].
  intros a b1 mid b2 c Ha Hc Hcl.
  rewrite safe_json_parse_unfold, Hcl.
  pose proof (brace_span_app a (b1 ++ rbrace :: mid ++ lbrace :: b2) c Ha Hc)
    as H.
  rewrite <- !app_assoc in H. simpl in H. rewrite <- !app_assoc in H.
  simpl in H. by rewrite H.
Qed.

Lemma safe_json_parse_operates_on_span_witness :
  let a := lit "Two answers: " in
  let b1 := qlit "'a': 1" in
  let mid := nl ++ lit "or" ++ nl in
  let b2 := qlit "'b': 2" in
  let c := lit " done" in
  let text := lit "```json" ++ nl ++ a ++ lbrace :: b1 ++ rbrace :: mid
              ++ lbrace :: b2 ++ rbrace :: c ++ nl ++ lit "```" ++ nl in
  (lbrace ∉ a) /\ (rbrace ∉ c)
  /\ cleaned text
     = a ++ lbrace :: b1 ++ rbrace :: mid ++ lbrace :: b2 ++ rbrace :: c
  /\ safe_json_parse Ref.json_loads text
     = call_loads Ref.json_loads
         (lbrace :: b1 ++ rbrace :: mid ++ lbrace :: b2 ++ [rbrace]).
Proof.
  cbv zeta.
  assert (lbrace ∉ lit "Two answers: ") as Ha
    by (apply (bool_decide_unpack _); by vm_compute).
  assert (rbrace ∉ lit " done") as Hc
    by (apply (bool_decide_unpack _); by vm_compute).
  split; [exact Ha|]. split; [exact Hc|].
  split; [vm_compute; reflexivity|].
  apply (proj2 (safe_json_parse_operates_on_span Ref.json_loads _)
           _ _ _ _ _ Ha Hc).
  vm_compute; reflexivity.
Defined.

(** The exception that [call_loads] raises for a failure of the decoder has
    the class of the failure: [JSONDecodeError] for malformed text alone. *)
Lemma loads_exception_class (doc : str) (err : loads_error) :
  exc_class (loads_exception doc err)
  = match err with
    | Malformed _ _ => "JSONDecodeError"
    | IntTooLong _ _ => "ValueError"
    | TooDeep _ => "RecursionError"
    end.
Proof. by destruct err. Qed.

Lemma loads_exception_not_no_json (doc : str) (err : loads_error) :
  loads_exception doc err <> ValueError "No JSON object found in Gemini output".
Proof. destruct err as [msg pos|limit digits|in_array]; simpl; by intros [=]. Qed.

Lemma loads_exception_malformed (doc doc' : str) (err : loads_error)
    (msg : string) (pos : nat) :
  loads_exception doc err = JSONDecodeError msg doc' pos ->
  err = Malformed msg pos /\ doc = doc'.
Proof.
  destruct err as [msg' pos'|limit digits|in_array]; simpl.
  - by intros [= -> -> ->].
  - intros H. apply (f_equal exc_class) in H. discriminate H.
  - intros H. apply (f_equal exc_class) in H. discriminate H.
Qed.

(** C3, as stated, fails: each of these two texts is one brace span that is
    valid JSON (the decoder without the interpreter's limits accepts it),
    yet [safe_json_parse] neither returns nor raises [JSONDecodeError].
    [json.loads] refuses to convert the integer of 4301 digits and raises a
    plain [ValueError]; on the 993 nested arrays it exhausts the call stack
    and raises [RecursionError]. *)
Lemma safe_json_parse_valid_json_may_raise :
  let big := qlit "{'n': " ++ replicate 4301 49 ++ [rbrace] in
  let deep := qlit "{'a': " ++ replicate 993 91 ++ replicate 993 93
              ++ [rbrace] in
  brace_span (cleaned big) = Some big
  /\ Ref.well_formed big = true
  /\ safe_json_parse Ref.json_loads big
     = Raise (ValueError
         ("Exceeds the limit (4300 digits) for integer string conversion: "
          +:+ "value has 4301 digits; use sys.set_int_max_str_digits() "
          +:+ "to increase the limit"))
  /\ brace_span (cleaned deep) = Some deep
  /\ Ref.well_formed deep = true
  /\ safe_json_parse Ref.json_loads deep
     = Raise (RecursionError
         ("maximum recursion depth exceeded while decoding a JSON array "
          +:+ "from a unicode string"))
  /\ (forall v, safe_json_parse Ref.json_loads big <> Ok v)
  /\ (forall msg pos,
        safe_json_parse Ref.json_loads big
        <> Raise (JSONDecodeError msg big pos))
  /\ (forall v, safe_json_parse Ref.json_loads deep <> Ok v)
  /\ (forall msg pos,
        safe_json_parse Ref.json_loads deep
        <> Raise (JSONDecodeError msg deep pos)).
Proof.
  cbv zeta.
  split; [vm_compute; reflexivity|]. split; [vm_compute; reflexivity|].
  assert (safe_json_parse Ref.json_loads
            (qlit "{'n': " ++ replicate 4301 49 ++ [rbrace])
          = Raise (ValueError
              ("Exceeds the limit (4300 digits) for integer string conversion: "
               +:+ "value has 4301 digits; use sys.set_int_max_str_digits() "
               +:+ "to increase the limit"))) as Hbig
    by (vm_compute; reflexivity).
  split; [exact Hbig|].
  split; [vm_compute; reflexivity|]. split; [vm_compute; reflexivity|].
  assert (safe_json_parse Ref.json_loads
            (qlit "{'a': " ++ replicate 993 91 ++ replicate 993 93 ++ [rbrace])
          = Raise (RecursionError
              ("maximum recursion depth exceeded while decoding a JSON array "
               +:+ "from a unicode string"))) as Hdeep
    by (vm_compute; reflexivity).
  split; [exact Hdeep|].
  rewrite Hbig, Hdeep.
  split; [done|]. split; [intros msg pos [= H]; discriminate H|].
  split; [done|]. intros msg pos [= H]; discriminate H.
Qed.

(** C3, amended.  [safe_json_parse] raises the builtin [ValueError] with the
    message "No JSON object found in Gemini output" exactly when the
    fence-stripped, trimmed text has no span from a first opening brace to a
    last closing brace; it raises [JSONDecodeError], carrying that span as
    its document, exactly when the decoder rejects the span as malformed; it
    returns exactly when the decoder returns for the span.  Those three do
    not cover every text: every other failure of the decoder on the span
    (the [ValueError] for an integer beyond the digit limit, the
    [RecursionError] for nesting too deep) leaves [safe_json_parse] as it
    left the decoder.  [JSONDecodeError] is itself a [ValueError], so the
    class alone does not tell the first two apart. *)
Theorem safe_json_parse_failures (json_loads : decoder) (text : str) :
  (safe_json_parse json_loads text
   = Raise (ValueError "No JSON object found in Gemini output")
   <-> brace_span (cleaned text) = None)
  /\ (forall span msg pos,
        safe_json_parse json_loads text
        = Raise (JSONDecodeError msg span pos)
        <-> brace_span (cleaned text) = Some span
            /\ json_loads span = inr (Malformed msg pos))
  /\ (forall v,
        safe_json_parse json_loads text = Ok v
        <-> exists span, brace_span (cleaned text) = Some span
                         /\ json_loads span = inl v)
  /\ (forall e,
        safe_json_parse json_loads text = Raise e
        <-> (e = ValueError "No JSON object found in Gemini output"
             /\ brace_span (cleaned text) = None)
            \/ (exists span err,
                  brace_span (cleaned text) = Some span
                  /\ json_loads span = inr err
                  /\ e = loads_exception span err))
  /\ (forall e,
        safe_json_parse json_loads text = Raise e ->
        exc_class e = "JSONDecodeError" ->
        exc_doc e = brace_span (cleaned text))
  /\ (forall msg doc pos,
        isinstance (JSONDecodeError msg doc pos) "ValueError" = true
        /\ exc_class (JSONDecodeError msg doc pos) <> "ValueError"
        /\ exc_doc (JSONDecodeError msg doc pos) = Some doc).
Proof.
  rewrite safe_json_parse_unfold. unfold call_loads.
  destruct (brace_span (cleaned text)) as [span|] eqn:Hspan.
  - destruct (json_loads span) as [v|err] eqn:Hl.
    + split; [split; intros H; discriminate H|].
      split; [intros span' msg pos; split;
              [intros H; discriminate H|intros [[= <-] H]; congruence]|].
      split.
      { intros v'. split.
        - intros [= <-]. by exists span.
        - intros (span' & [= <-] & H). congruence. }
      split.
      { intros e. split; [intros H; discriminate H|].
        intros [[_ H]|(span' & err & [= <-] & H & _)]; congruence. }
      split; [intros e H; discriminate H|done].
    + split.
      { split; [|intros H; discriminate H].
        intros [= H]. by apply loads_exception_not_no_json in H. }
      split.
      { intros span' msg pos. split.
        - intros [= H]. apply loads_exception_malformed in H as [-> ->]. done.
        - intros [[= <-] H]. rewrite Hl in H. by injection H as ->. }
      split.
      { intros v. split; [intros H; discriminate H|].
        intros (span' & [= <-] & H). congruence. }
      split.
      { intros e. split.
        - intros [= <-]. right. by exists span, err.
        - intros [[_ H]|(span' & err' & [= <-] & H & ->)]; [discriminate H|].
          rewrite Hl in H. by injection H as ->. }
      split; [|done].
      intros e [= <-] Hc. rewrite loads_exception_class in Hc.
      by destruct err.
  - split; [done|]. split.
    { intros span msg pos. split; [intros H; discriminate H|].
      intros [H _]. discriminate H. }
    split.
    { intros v. split; [intros H; discriminate H|].
      intros (span & H & _). discriminate H. }
    split.
    { intros e. split.
      - intros [= <-]. by left.
      - intros [[-> _]|(span & err & H & _)]; [done|discriminate H]. }
    split; [|done].
    intros e [= <-] Hc. discriminate Hc.
Qed.

Lemma safe_json_parse_failures_witness :
  let span := qlit "{'a': }" in
  let text := lit "```json" ++ nl ++ span ++ nl ++ lit "```" in
  brace_span (cleaned text) = Some span
  /\ Ref.json_loads span = inr (Malformed "Expecting value" 6)
  /\ safe_json_parse Ref.json_loads text
     = Raise (JSONDecodeError "Expecting value" span 6).
Proof.
  cbv zeta.
  assert (brace_span
            (cleaned (lit "```json" ++ nl ++ qlit "{'a': }" ++ nl ++ lit "```"))
          = Some (qlit "{'a': }")) as Hspan by (vm_compute; reflexivity).
  assert (Ref.json_loads (qlit "{'a': }") = inr (Malformed "Expecting value" 6))
    as Hl by (vm_compute; reflexivity).
  split; [exact Hspan|]. split; [exact Hl|].
  apply (proj2 (proj1 (proj2 (safe_json_parse_failures Ref.json_loads _))
                  _ _ _)).
  split; [exact Hspan|exact Hl].
Defined.

(** C10.  After the two replacements no triple backtick is left anywhere in
    the text that the brace search sees, so none is left inside a JSON
    string either; there is a JSON object with a triple backtick in a string
    field for which [safe_json_parse] returns a different object, the field
    having lost its backticks. *)
Theorem safe_json_parse_strips_backticks_everywhere :
  (forall text : str,
     contains (without_fences text) (lit "```") = false
     /\ contains (cleaned text) (lit "```") = false
     /\ contains (cleaned text) (lit "```json") = false)
  /\ exists (doc : str) (original returned : json),
       doc = qlit "{'summary': 'run ```make``` first'}"
       /\ Ref.json_loads doc = inl original
       /\ original = JObject [(lit "summary",
                              JString (lit "run ```make``` first"))]
       /\ safe_json_parse Ref.json_loads doc = Ok returned
       /\ returned = JObject [(lit "summary", JString (lit "run make first"))]
       /\ returned <> original.
Proof.
  split.
  - intros text.
    assert (contains (cleaned text) (lit "```") = false) as H.
    { destruct (strip_infix (without_fences text)) as (l & r & Hs).
      apply (contains_infix l _ r). fold (cleaned text) in Hs.
      rewrite <- Hs. apply without_fences_clean. }
    split; [apply without_fences_clean|]. split; [done|].
    rewrite fence_json_lit, <- fence_lit. by apply contains_longer.
  - eexists _, _, _. split; [reflexivity|].
    split; [vm_compute; reflexivity|]. split; [reflexivity|].
    split; [vm_compute; reflexivity|]. split; [reflexivity|].
    by vm_compute.
Qed.




(** ** UTF-8 *)

Lemma utf8_decode_from_unfold (pos : nat) (data : bytes) :
  utf8_decode_from pos data = utf8_decode_step utf8_decode_from pos data.
Proof. by destruct data. Qed.

(** The decoder raises nothing but [UnicodeDecodeError]. *)
Lemma utf8_decode_from_raises (data : bytes) :
  forall pos e,
    utf8_decode_from pos data = Raise e -> exc_class e = "UnicodeDecodeError".
Proof.
  remember (length data) as n eqn:Hn.
  revert data Hn. induction n as [n IH] using lt_wf_ind.
  intros data Hn pos e.
  assert (forall t p r, (length t < n)%nat ->
            match utf8_decode_from p t with
            | Ok s => Ok (r :: s)
            | Raise e0 => Raise e0
            end = Raise e -> exc_class e = "UnicodeDecodeError") as Hemit.
  { intros t p r Ht H.
    destruct (utf8_decode_from p t) eqn:E; [done|].
    injection H as <-. by eapply (IH (length t)). }
  destruct data as [|x0 t0]; [done|]. simpl in Hn. simpl.
  destruct (Byte.to_N x0 <? 128); [apply Hemit; lia|].
  destruct ((Byte.to_N x0 <? 194) || (244 <? Byte.to_N x0));
    [by intros [= <-]|].
  destruct t0 as [|x1 t1]; [by intros [= <-]|]. simpl in Hn.
  destruct (Byte.to_N x0 <? 224).
  { destruct (is_cont (Byte.to_N x1)); [apply Hemit; lia|by intros [= <-]]. }
  destruct (second_ok (Byte.to_N x0) (Byte.to_N x1)); [|by intros [= <-]].
  simpl negb. cbv iota.
  destruct t1 as [|x2 t2]; [by intros [= <-]|]. simpl in Hn.
  destruct (is_cont (Byte.to_N x2)); [|by intros [= <-]].
  simpl negb. cbv iota.
  destruct (Byte.to_N x0 <? 240); [apply Hemit; lia|].
  destruct t2 as [|x3 t3]; [by intros [= <-]|]. simpl in Hn.
  destruct (is_cont (Byte.to_N x3)); [apply Hemit; lia|by intros [= <-]].
Qed.

Lemma to_N_byte_of (n : N) : n < 256 -> Byte.to_N (byte_of n) = n.
Proof.
  intros H. unfold byte_of.
  destruct (Byte.of_N n) as [b|] eqn:E.
  - simpl. by apply Byte.to_of_N.
  - apply Byte.of_N_None_iff in E. lia.
Qed.

Ltac divmod := zify; Z.to_euclidean_division_equations; lia.

Lemma shiftr_div (c : N) :
  N.shiftr c 6 = c / 64 /\ N.shiftr c 12 = c / 4096
  /\ N.shiftr c 18 = c / 262144.
Proof. by rewrite !N.shiftr_div_pow2. Qed.

Lemma shiftl_mul (c : N) :
  N.shiftl c 6 = c * 64 /\ N.shiftl c 12 = c * 4096
  /\ N.shiftl c 18 = c * 262144.
Proof. by rewrite !N.shiftl_mul_pow2. Qed.

Lemma land_mod (c : N) :
  N.land c 63 = c mod 64 /\ N.land c 31 = c mod 32
  /\ N.land c 15 = c mod 16 /\ N.land c 7 = c mod 8.
Proof.
  change 63 with (N.ones 6). change 31 with (N.ones 5).
  change 15 with (N.ones 4). change 7 with (N.ones 3).
  by rewrite !N.land_ones.
Qed.

Ltac to_divmod :=
  unfold low6;
  repeat match goal with
  | |- context [N.shiftr ?c 6] => rewrite (proj1 (shiftr_div c))
  | |- context [N.shiftr ?c 12] => rewrite (proj1 (proj2 (shiftr_div c)))
  | |- context [N.shiftr ?c 18] => rewrite (proj2 (proj2 (shiftr_div c)))
  | |- context [N.shiftl ?c 6] => rewrite (proj1 (shiftl_mul c))
  | |- context [N.shiftl ?c 12] => rewrite (proj1 (proj2 (shiftl_mul c)))
  | |- context [N.shiftl ?c 18] => rewrite (proj2 (proj2 (shiftl_mul c)))
  | |- context [N.land ?c 63] => rewrite (proj1 (land_mod c))
  | |- context [N.land ?c 31] => rewrite (proj1 (proj2 (land_mod c)))
  | |- context [N.land ?c 15] => rewrite (proj1 (proj2 (proj2 (land_mod c))))
  | |- context [N.land ?c 7] => rewrite (proj2 (proj2 (proj2 (land_mod c))))
  end.

Ltac decide_tests :=
  repeat match goal with
  | |- context [N.ltb ?a ?b] =>
      destruct (N.ltb_spec a b); [try (exfalso; lia)|try (exfalso; lia)]
  | |- context [N.leb ?a ?b] =>
      destruct (N.leb_spec a b); [try (exfalso; lia)|try (exfalso; lia)]
  | |- context [N.eqb ?a ?b] =>
      destruct (N.eqb_spec a b); [try (exfalso; lia)|try (exfalso; lia)]
  end.

Lemma low6_cont (r : N) : r < 64 -> low6 (128 + r) = r.
Proof. intros H. to_divmod. divmod. Qed.

Lemma is_cont_cont (r : N) : r < 64 -> is_cont (128 + r) = true.
Proof. intros H. unfold is_cont. by decide_tests. Qed.

Lemma lead2 (q : N) : q < 32 -> N.land (192 + q) 31 = q.
Proof. intros H. to_divmod. divmod. Qed.

Lemma lead3 (q : N) : q < 16 -> N.land (224 + q) 15 = q.
Proof. intros H. to_divmod. divmod. Qed.

Lemma lead4 (q : N) : q < 8 -> N.land (240 + q) 7 = q.
Proof. intros H. to_divmod. divmod. Qed.

Lemma utf8_decode_seq1 (a : N) (rest : bytes) (pos : nat) :
  a < 128 ->
  utf8_decode_from pos (byte_of a :: rest)
  = emit_char a (utf8_decode_from (1 + pos) rest).
Proof.
  intros Ha. rewrite utf8_decode_from_unfold. unfold utf8_decode_step.
  rewrite !to_N_byte_of by lia. by decide_tests.
Qed.

Lemma utf8_decode_seq2 (a d : N) (rest : bytes) (pos : nat) :
  2 <= a < 32 -> d < 64 ->
  utf8_decode_from pos (byte_of (192 + a) :: byte_of (128 + d) :: rest)
  = emit_char (a * 64 + d) (utf8_decode_from (2 + pos) rest).
Proof.
  intros Ha Hd. rewrite utf8_decode_from_unfold. unfold utf8_decode_step.
  rewrite !to_N_byte_of by lia.
  rewrite !is_cont_cont, lead2, !low6_cont by lia.
  rewrite (proj1 (shiftl_mul a)). by decide_tests.
Qed.

Lemma second_ok_cont (b0 b : N) :
  b < 64 ->
  (b0 = 224 -> 32 <= b) -> (b0 = 237 -> b < 32) ->
  (b0 = 240 -> 16 <= b) -> (b0 = 244 -> b < 16) ->
  second_ok b0 (128 + b) = true.
Proof.
  intros Hb H1 H2 H3 H4. unfold second_ok. rewrite is_cont_cont by done.
  simpl. by decide_tests.
Qed.

Lemma utf8_decode_seq3 (a b d : N) (rest : bytes) (pos : nat) :
  a < 16 -> b < 64 -> d < 64 ->
  (a = 0 -> 32 <= b) -> (a = 13 -> b < 32) ->
  utf8_decode_from pos
    (byte_of (224 + a) :: byte_of (128 + b) :: byte_of (128 + d) :: rest)
  = emit_char (a * 4096 + b * 64 + d) (utf8_decode_from (3 + pos) rest).
Proof.
  intros Ha Hb Hd H0 H13.
  rewrite utf8_decode_from_unfold. unfold utf8_decode_step.
  rewrite !to_N_byte_of by lia.
  rewrite second_ok_cont, !is_cont_cont, lead3, !low6_cont by lia.
  rewrite (proj1 (proj2 (shiftl_mul a))), (proj1 (shiftl_mul b)).
  by decide_tests.
Qed.

Lemma utf8_decode_seq4 (a b d e : N) (rest : bytes) (pos : nat) :
  a < 5 -> b < 64 -> d < 64 -> e < 64 ->
  (a = 0 -> 16 <= b) -> (a = 4 -> b < 16) ->
  utf8_decode_from pos
    (byte_of (240 + a) :: byte_of (128 + b) :: byte_of (128 + d)
       :: byte_of (128 + e) :: rest)
  = emit_char (a * 262144 + b * 4096 + d * 64 + e)
      (utf8_decode_from (4 + pos) rest).
Proof.
  intros Ha Hb Hd He H0 H4.
  rewrite utf8_decode_from_unfold. unfold utf8_decode_step.
  rewrite !to_N_byte_of by lia.
  rewrite second_ok_cont, !is_cont_cont, lead4, !low6_cont by lia.
  rewrite (proj2 (proj2 (shiftl_mul a))), (proj1 (proj2 (shiftl_mul b))),
    (proj1 (shiftl_mul d)).
  by decide_tests.
Qed.

Lemma utf8_decode_encode_char (c : N) (rest : bytes) (pos : nat) :
  is_scalar c = true ->
  utf8_decode_from pos (utf8_encode_char c ++ rest)
  = emit_char c
      (utf8_decode_from (length (utf8_encode_char c) + pos) rest).
Proof.
  intros Hc. unfold is_scalar in Hc.
  assert (c < 55296 \/ 57343 < c < 1114112) as Hrange.
  { revert Hc. decide_tests; simpl; intros; try done; lia. }
  clear Hc. unfold utf8_encode_char.
  destruct (N.ltb_spec c 128) as [H1|H1]; [by apply utf8_decode_seq1|].
  destruct (N.ltb_spec c 2048) as [H2|H2].
  { to_divmod. simpl app. rewrite utf8_decode_seq2 by divmod.
    f_equal. divmod. }
  destruct (N.ltb_spec c 65536) as [H3|H3].
  { to_divmod. simpl app. rewrite utf8_decode_seq3 by divmod.
    f_equal. divmod. }
  to_divmod. simpl app. rewrite utf8_decode_seq4 by divmod.
  f_equal. divmod.
Qed.

(** Decoding undoes encoding on every text of scalar values. *)
Lemma utf8_decode_encode (s : str) :
  forallb is_scalar s = true -> utf8_decode (utf8_encode s) = Ok s.
Proof.
  unfold utf8_decode. generalize O as pos.
  induction s as [|c s IH]; intros pos Hs; [done|].
  simpl in Hs. apply andb_prop in Hs as [Hc Hs].
  unfold utf8_encode. simpl. rewrite utf8_decode_encode_char by done.
  fold (utf8_encode s). by rewrite IH.
Qed.

(** ** File helpers *)

Lemma extract_text_from_txt_unfold (f : file) :
  (extract_text_from_txt f).1
  = match utf8_decode (drop (position f) (content f)) with
    | Ok s => Ok (strip s)
    | Raise e => Raise e
    end.
Proof.
  unfold extract_text_from_txt, bind, file_read, lift, ret. simpl.
  by destruct (utf8_decode _).
Qed.

(** C4.  For a text upload read from its start whose bytes are valid UTF-8,
    the extracted text is the decoded text without its leading and trailing
    whitespace. *)
Theorem extract_text_from_txt_trims (f : file) (s : str) :
  position f = O ->
  utf8_decode (content f) = Ok s ->
  exists t, (extract_text_from_txt f).1 = Ok t /\ t = strip s /\ trimmed s t.
Proof.
  intros Hpos Hdec. exists (strip s).
  rewrite extract_text_from_txt_unfold, Hpos, drop_0, Hdec.
  split; [done|]. split; [done|]. apply strip_trimmed.
Qed.

Lemma extract_text_from_txt_trims_witness :
  (* "  café \n": two spaces, c a f, C3 A9, a space and a newline *)
  let f := File [Byte.x20; Byte.x20; Byte.x63; Byte.x61; Byte.x66;
                 Byte.xc3; Byte.xa9; Byte.x20; Byte.x0a] O in
  position f = O
  /\ utf8_decode (content f) = Ok [32; 32; 99; 97; 102; 233; 32; 10]
  /\ exists t, (extract_text_from_txt f).1 = Ok t
               /\ t = strip [32; 32; 99; 97; 102; 233; 32; 10]
               /\ trimmed [32; 32; 99; 97; 102; 233; 32; 10] t.
Proof.
  cbv zeta. split; [reflexivity|]. split; [vm_compute; reflexivity|].
  apply extract_text_from_txt_trims; [reflexivity|vm_compute; reflexivity].
Defined.

(** X15.  The upload of the UTF-8 encoding of any text of scalar values,
    read from its start, gives that text back, trimmed. *)
Lemma extract_text_from_txt_encoded (s : str) :
  forallb is_scalar s = true ->
  (extract_text_from_txt (File (utf8_encode s) O)).1 = Ok (strip s).
Proof.
  intros Hs. rewrite extract_text_from_txt_unfold. simpl position.
  simpl content. by rewrite drop_0, utf8_decode_encode.
Qed.

Lemma extract_text_from_pdf_unfold `{PdfLibs} (f : file) :
  (extract_text_from_pdf f).1
  = match pdf_primary (Frame f []) with
    | (Ok _, fr) => Ok (strip (fr_text fr))
    | (Raise e, fr) =>
        if isinstance e "Exception"
        then match pdf_fallback fr with
             | (Ok _, fr') => Ok (strip (fr_text fr'))
             | (Raise e', _) => Raise e'
             end
        else Raise e
    end.
Proof.
  unfold extract_text_from_pdf, try_except.
  destruct (pdf_primary (Frame f [])) as [[u|e] fr]; [done|].
  simpl handle. destruct (isinstance e "Exception"); [|done].
  by destruct (pdf_fallback fr) as [[u|e'] fr'].
Qed.

(** C5, as stated, fails on both paths: bytes that are not UTF-8 reach the
    caller as [UnicodeDecodeError], and a PDF that both engines reject
    reaches the caller as the second engine's exception. *)
Lemma extraction_errors_are_raw :
  ~ surfaces_as_ExtractionError (extract_text_from_txt (File [Byte.xff] O)).1
  /\ ~ surfaces_as_ExtractionError
        (@extract_text_from_pdf
           (Scripted.pdf_libs
              (Raise (Exn "PDFSyntaxError"
                          ["PDFException"; "Exception"; "BaseException"]
                          "No /Root object!" None 0))
              O
              (fun _ =>
                 Raise (Exn "FileDataError"
                            ["RuntimeError"; "Exception"; "BaseException"]
                            "Failed to open stream" None 0)))
           (File [Byte.xff] O)).1.
Proof. split; by vm_compute. Qed.

(** C5, amended.  Nothing wraps the extractor's failures.  On the text path
    undecodable bytes raise [UnicodeDecodeError], which goes to the caller
    as it is.  On the PDF path an [Exception] of the first engine is caught
    and the second engine is tried; an exception of the second engine, or
    one of the first engine that is not an [Exception], goes to the caller
    as it is. *)
Theorem extraction_errors_propagate :
  (forall (f : file) (e : exn),
     utf8_decode (drop (position f) (content f)) = Raise e ->
     (extract_text_from_txt f).1 = Raise e
     /\ exc_class e = "UnicodeDecodeError")
  /\ (forall (L : PdfLibs) (f : file) (e1 e2 : exn) (fr fr' : pdf_frame),
        pdf_primary (Frame f []) = (Raise e1, fr) ->
        isinstance e1 "Exception" = true ->
        pdf_fallback fr = (Raise e2, fr') ->
        (extract_text_from_pdf f).1 = Raise e2)
  /\ (forall (L : PdfLibs) (f : file) (e1 : exn) (fr : pdf_frame),
        pdf_primary (Frame f []) = (Raise e1, fr) ->
        isinstance e1 "Exception" = false ->
        (extract_text_from_pdf f).1 = Raise e1).
Proof.
  split; [|split].
  - intros f e H. rewrite extract_text_from_txt_unfold, H. split; [done|].
    by eapply utf8_decode_from_raises.
  - intros L f e1 e2 fr fr' H1 Hi H2.
    by rewrite extract_text_from_pdf_unfold, H1, Hi, H2.
  - intros L f e1 fr H1 Hi.
    by rewrite extract_text_from_pdf_unfold, H1, Hi.
Qed.

Lemma extraction_errors_propagate_witness :
  let f := File [Byte.x41; Byte.xff] O in
  let bad := UnicodeDecodeError "invalid start byte" 1 in
  let e1 := Exn "PDFSyntaxError" ["PDFException"; "Exception"; "BaseException"]
                "No /Root object!" None 0 in
  let e2 := Exn "FileDataError" ["RuntimeError"; "Exception"; "BaseException"]
                "Failed to open stream" None 0 in
  let L := Scripted.pdf_libs (Raise e1) O (fun _ => Raise e2) in
  utf8_decode (drop (position f) (content f)) = Raise bad
  /\ (extract_text_from_txt f).1 = Raise bad
  /\ isinstance e1 "Exception" = true
  /\ (@extract_text_from_pdf L f).1 = Raise e2.
Proof.
  cbv zeta. split; [vm_compute; reflexivity|].
  split.
  - apply (proj1 extraction_errors_propagate). vm_compute; reflexivity.
  - split; [vm_compute; reflexivity|].
    eapply (proj1 (proj2 extraction_errors_propagate));
      vm_compute; reflexivity.
Defined.

(** The second engine's pages are appended to whatever [text] holds. *)
Lemma for_each_fitz `{PdfLibs} (pages : list fitz_page) (ts : list str)
    (fr : pdf_frame) :
  Forall2 (fun p t => fitz_get_text p = Ok t) pages ts ->
  for_each pages (fun page => t <- lift (fitz_get_text page) ;; text_append t)
           fr
  = (Ok tt, Frame (fr_file fr) (fr_text fr ++ concat ts)).
Proof.
  intros Hp. revert fr. induction Hp as [|p t pages ts Hp _ IH]; intros fr.
  - simpl. unfold ret. rewrite app_nil_r. by destruct fr.
  - simpl. unfold bind at 1. unfold bind at 1. unfold lift at 1.
    rewrite Hp. unfold text_append at 1. rewrite IH. simpl.
    by rewrite app_assoc.
Qed.

(** X14.  What the extractor returns once the first engine has failed with
    an [Exception] and the second engine reads every page: the text
    gathered before the failure followed by the second engine's pages, the
    second engine being opened on the bytes from the stream's current read
    position on, not on the whole file. *)
Lemma extract_text_from_pdf_after_failure `{PdfLibs} (f : file) (e : exn)
    (fr : pdf_frame) (pages : list fitz_page) (ts : list str) :
  pdf_primary (Frame f []) = (Raise e, fr) ->
  isinstance e "Exception" = true ->
  fitz_open (drop (position (fr_file fr)) (content (fr_file fr))) = Ok pages ->
  Forall2 (fun p t => fitz_get_text p = Ok t) pages ts ->
  (extract_text_from_pdf f).1 = Ok (strip (fr_text fr ++ concat ts)).
Proof.
  intros H1 Hi Ho Hp. rewrite extract_text_from_pdf_unfold, H1, Hi.
  unfold pdf_fallback, bind at 1. unfold on_file, file_read at 1.
  unfold bind at 1. unfold lift at 1. rewrite Ho.
  by rewrite (for_each_fitz _ ts).
Qed.

(** C6 fails on the code.  A PDF whose first page yields its text and whose
    second page makes the first engine raise: the second engine is called
    and returns both pages, yet the extractor returns the first page twice,
    because the text gathered before the failure is kept. *)
Theorem extract_text_from_pdf_keeps_partial_text :
  let broken := Exn "PDFSyntaxError"
                    ["PDFException"; "Exception"; "BaseException"]
                    "Invalid dictionary construct" None 0 in
  let L := Scripted.pdf_libs
             (Ok [Ok (Some (lit "Page one. ")); Raise broken]) O
             (fun _ => Ok [Ok (lit "Page one. "); Ok (lit "Page two.")]) in
  let f := File [Byte.x25; Byte.x50; Byte.x44; Byte.x46] O in
  (@pdf_primary L (Frame f [])).1 = Raise broken
  /\ isinstance broken "Exception" = true
  /\ (@extract_text_from_pdf L f).1
     = Ok (lit "Page one. Page one. Page two.")
  /\ (@extract_text_from_pdf L f).1
     <> Ok (strip (lit "Page one. " ++ lit "Page two.")).
Proof. cbv zeta. repeat split; by vm_compute. Qed.

(** ** The prompt *)

Lemma take_min (n : nat) (s : str) : take (min n (length s)) s = take n s.
Proof.
  destruct (Nat.min_spec n (length s)) as [[_ ->]|[Hle ->]]; [done|].
  by rewrite firstn_all, take_ge.
Qed.

(** C7.  The prompt is the fixed text around two segments; the segments are
    the first [min 4000 length] code points of the resume and of the job
    description, so neither is longer than 4000, and an input of at most
    4000 code points is embedded whole.  This prompt is what is sent to the
    model. *)
Theorem prompt_segments_are_truncated (resume_text jd_text : str) :
  (exists seg_r seg_j : str,
     build_prompt resume_text jd_text
     = prompt_head ++ seg_r ++ prompt_middle ++ seg_j ++ prompt_tail
     /\ seg_r = take (min 4000 (length resume_text)) resume_text
     /\ seg_j = take (min 4000 (length jd_text)) jd_text
     /\ length seg_r = min 4000 (length resume_text)
     /\ length seg_j = min 4000 (length jd_text)
     /\ (length seg_r <= 4000)%nat /\ (length seg_j <= 4000)%nat
     /\ ((length resume_text <= 4000)%nat -> seg_r = resume_text)
     /\ ((length jd_text <= 4000)%nat -> seg_j = jd_text))
  /\ forall (G : GenaiLib) (client : genai_client) (log : list event),
       exists rest,
         (analyze_resume_vs_jd client resume_text jd_text log).2
         = log ++ GenerateContent "gemini-3-flash-preview"
                    (build_prompt resume_text jd_text) :: rest.
Proof.
  split.
  - exists (slice_to 4000 resume_text), (slice_to 4000 jd_text).
    unfold slice_to. rewrite !take_min, !length_take.
    split; [done|]. split; [done|]. split; [done|].
    split; [done|]. split; [done|].
    split; [apply Nat.le_min_l|]. split; [apply Nat.le_min_l|].
    split; intros Hle; by apply take_ge.
  - intros G client log. exists [].
    unfold analyze_resume_vs_jd, bind, emit, lift, ret.
    by destruct (generate_content _ _ _).
Qed.

Lemma prompt_segments_are_truncated_witness :
  let resume_text := lit "5 years Python" in
  let jd_text := lit "Need Python developer" in
  (length resume_text <= 4000)%nat /\ (length jd_text <= 4000)%nat
  /\ build_prompt resume_text jd_text
     = prompt_head ++ resume_text ++ prompt_middle ++ jd_text ++ prompt_tail.
Proof.
  cbv zeta.
  assert (length (lit "5 years Python") <= 4000)%nat as Hr
    by (vm_compute; lia).
  assert (length (lit "Need Python developer") <= 4000)%nat as Hj
    by (vm_compute; lia).
  split; [exact Hr|]. split; [exact Hj|].
  destruct (proj1 (prompt_segments_are_truncated
                     (lit "5 years Python") (lit "Need Python developer")))
    as (seg_r & seg_j & Hp & _ & _ & _ & _ & _ & _ & Her & Hej).
  rewrite Hp. by rewrite (Her Hr), (Hej Hj).
Defined.

(** ** Delivery *)

Lemma attempts_app (l1 l2 : list event) :
  attempts (l1 ++ l2) = (attempts l1 + attempts l2)%nat.
Proof. induction l1 as [|ev l1 IH]; simpl; [done|]. rewrite IH. lia. Qed.

Lemma dispatch_unfold `{RequestsLib payload} (url : option str)
    (body : payload) (log : list event) :
  dispatch url body log
  = match requests_post url body 5 with
    | Ok _ =>
        (Ok tt,
         log ++ [RequestsPost url body 5;
                 StSuccess "✅ Request sent to n8n. Processing in background."])
    | Raise e =>
        if isinstance e "ReadTimeout" then
          (Ok tt,
           log ++ [RequestsPost url body 5;
                   StSuccess
                     "✅ Request accepted by n8n. Processing in background."])
        else if isinstance e "RequestException" then
          (Raise StopException,
           log ++ [RequestsPost url body 5;
                   StError "❌ Failed to reach n8n"; StException e])
        else (Raise e, log ++ [RequestsPost url body 5])
    end.
Proof.
  unfold dispatch, try_except, bind, emit, lift, st_stop, raise.
  destruct (requests_post url body 5) as [code|e].
  - by rewrite <- app_assoc.
  - simpl handle. destruct (isinstance e "ReadTimeout").
    + by rewrite <- app_assoc.
    + destruct (isinstance e "RequestException"); [|done].
      by rewrite <- !app_assoc.
Qed.

(** C8.  A post that raises [ReadTimeout] is reported as a success and the
    script goes on.  A post that raises anything else ends the run with an
    exception and reports no success: a [RequestException] is shown as
    "Failed to reach n8n" before the script stops, any other exception
    leaves the block as it is.  In every case the log gains exactly one
    delivery attempt. *)
Theorem dispatch_read_timeout_is_success (R : RequestsLib payload)
    (url : option str) (body : payload) (log : list event) :
  (forall e,
     requests_post url body 5 = Raise e ->
     isinstance e "ReadTimeout" = true ->
     dispatch url body log
     = (Ok tt,
        log ++ [RequestsPost url body 5;
                StSuccess
                  "✅ Request accepted by n8n. Processing in background."]))
  /\ (forall e,
        requests_post url body 5 = Raise e ->
        isinstance e "ReadTimeout" = false ->
        exists e' evs,
          dispatch url body log
          = (Raise e', log ++ RequestsPost url body 5 :: evs)
          /\ existsb reports_success evs = false
          /\ if isinstance e "RequestException"
             then e' = StopException
                  /\ evs = [StError "❌ Failed to reach n8n"; StException e]
             else e' = e /\ evs = [])
  /\ attempts (dispatch url body log).2 = S (attempts log).
Proof.
  rewrite dispatch_unfold. split; [|split].
  - intros e -> Hi. by rewrite Hi.
  - intros e -> Hi. rewrite Hi.
    destruct (isinstance e "RequestException"); eexists _, _; done.
  - destruct (requests_post url body 5) as [code|e].
    + simpl. rewrite attempts_app. simpl. lia.
    + destruct (isinstance e "ReadTimeout");
        [|destruct (isinstance e "RequestException")];
        simpl; rewrite attempts_app; simpl; lia.
Qed.

Lemma dispatch_read_timeout_is_success_witness :
  let url := Some (lit "https://n8n.example/webhook/resume") in
  let body := Payload (lit "Jane Doe") (lit "Acme") (lit "Engineer")
                (lit "r@acme.com")
                (JObject [(lit "recommendation", JString (lit "APPLY"))]) in
  let slow := Scripted.requests (Raise (ReadTimeout "Read timed out.")) in
  let down := Scripted.requests
                (Raise (ConnectionError "Connection refused")) in
  (@dispatch slow url body []).1 = Ok tt
  /\ existsb reports_success (@dispatch slow url body []).2 = true
  /\ (exists e', (@dispatch down url body []).1 = Raise e')
  /\ existsb reports_success (@dispatch down url body []).2 = false
  /\ attempts (@dispatch slow url body []).2 = 1%nat
  /\ attempts (@dispatch down url body []).2 = 1%nat.
Proof.
  cbv zeta.
  set (url := Some (lit "https://n8n.example/webhook/resume")).
  set (body := Payload _ _ _ _ _).
  pose proof (dispatch_read_timeout_is_success
                (Scripted.requests (Raise (ReadTimeout "Read timed out.")))
                url body []) as (Hslow & _ & Hn1).
  pose proof (dispatch_read_timeout_is_success
                (Scripted.requests
                   (Raise (ConnectionError "Connection refused")))
                url body []) as (_ & Hdown & Hn2).
  specialize (Hslow _ eq_refl eq_refl).
  destruct (Hdown _ eq_refl eq_refl) as (e' & evs & Hd & Hns & Hcase).
  simpl in Hcase. destruct Hcase as [-> ->].
  rewrite Hslow, Hd. repeat split; try done. by exists StopException.
Defined.

(** ** Configuration *)

Lemma appends_ret {A} (a : A) : appends (ret a).
Proof. intros log. exists []. by rewrite app_nil_r. Qed.

Lemma appends_raise {A} (e : exn) : appends (@raise _ A e).
Proof. intros log. exists []. by rewrite app_nil_r. Qed.

Lemma appends_lift {A} (r : result A) : appends (lift r).
Proof. intros log. exists []. by rewrite app_nil_r. Qed.

Lemma appends_emit (ev : event) : appends (emit ev).
Proof. intros log. by exists [ev]. Qed.

Lemma appends_bind {A B} (m : M (list event) A) (k : A -> M (list event) B) :
  appends m -> (forall a, appends (k a)) -> appends (bind m k).
Proof.
  intros Hm Hk log. unfold bind. destruct (Hm log) as [evs Hevs].
  destruct (m log) as [[a|e] log']; simpl in Hevs; subst log'.
  - destruct (Hk a (log ++ evs)) as [evs' H']. exists (evs ++ evs').
    by rewrite H', app_assoc.
  - by exists evs.
Qed.

Lemma appends_handle {A} (hs : list (string * (exn -> M (list event) A)))
    (e : exn) :
  Forall (fun h => forall e', appends (h.2 e')) hs -> appends (handle hs e).
Proof.
  induction 1 as [|[cls h] hs Hh _ IH]; simpl; [apply appends_raise|].
  destruct (isinstance e cls); [apply Hh|apply IH].
Qed.

Lemma appends_try_except {A} (m : M (list event) A)
    (hs : list (string * (exn -> M (list event) A))) :
  appends m -> Forall (fun h => forall e', appends (h.2 e')) hs ->
  appends (try_except m hs).
Proof.
  intros Hm Hh log. unfold try_except. destruct (Hm log) as [evs Hevs].
  destruct (m log) as [[a|e] log']; simpl in Hevs; subst log'.
  - by exists evs.
  - destruct (appends_handle hs e Hh (log ++ evs)) as [evs' H'].
    exists (evs ++ evs'). by rewrite H', app_assoc.
Qed.

Lemma appends_dispatch `{RequestsLib payload} (url : option str)
    (body : payload) : appends (dispatch url body).
Proof.
  intros log. rewrite dispatch_unfold.
  destruct (requests_post url body 5) as [code|e]; [by eexists|].
  destruct (isinstance e "ReadTimeout"); [by eexists|].
  destruct (isinstance e "RequestException"); by eexists.
Qed.

Ltac appends_step :=
  first
    [ apply appends_ret | apply appends_raise | apply appends_lift
    | apply appends_emit | apply appends_dispatch
    | apply appends_bind; [|intros ?]
    | apply appends_try_except; [|repeat constructor; simpl; intros ?] ].

(** The steps after the model call only add to the log. *)
Lemma appends_after_prompt `{GenaiLib} `{RequestsLib payload}
    (json_loads : decoder) (client : genai_client) (url : option str)
    (ui : inputs) (prompt : str) :
  appends (raw_output <-
             (text <- lift (generate_content client "gemini-3-flash-preview"
                              prompt) ;;
              ret (strip text)) ;;
           emit (StCode raw_output) ;;;
           result_json <-
             try_except
               (lift (safe_json_parse json_loads raw_output))
               [("Exception", fun e =>
                   emit (StError "❌ Gemini response is not valid JSON") ;;;
                   emit (StException e) ;;;
                   st_stop)] ;;
           emit (StSuccess "✅ Gemini JSON Parsed Successfully") ;;;
           emit (StJson result_json) ;;;
           score <- lift (json_get result_json (lit "match_score") (JInt 0)) ;;
           emit (StMetric "Match Score" score) ;;;
           rec <- lift (json_get result_json (lit "recommendation")
                          (JString (lit "N/A"))) ;;
           emit (StInfoValue "Recommendation: " rec) ;;;
           emit (StWriteLit "### Summary") ;;;
           summary <- lift (json_get result_json (lit "summary")
                              (JString [])) ;;
           emit (StWrite summary) ;;;
           dispatch url
             (Payload (candidate_name ui) (company ui) (role ui)
                (recruiter_email ui) result_json) ;;;
           emit (StInfo "📊 Check Google Sheets & Email for final result")).
Proof. unfold st_stop. repeat appends_step. Qed.

Lemma bind_ok {S A B} (m : M S A) (k : A -> M S B) (s s' : S) (a : A) :
  m s = (Ok a, s') -> bind m k s = k a s'.
Proof. intros H. unfold bind. by rewrite H. Qed.

Lemma bind_raise {S A B} (m : M S A) (k : A -> M S B) (s s' : S) (e : exn) :
  m s = (Raise e, s') -> bind m k s = (Raise e, s').
Proof. intros H. unfold bind. by rewrite H. Qed.

(** C9, as stated, fails: with the webhook URL missing from the environment
    and the form filled in, the run calls the model, parses the answer and
    tries the delivery; the missing URL shows only there. *)
Lemma missing_webhook_url_runs_pipeline :
  let environ : gmap string (list N) := {[ "GEMINI_API_KEY" := lit "key" ]} in
  let ui := Inputs (lit "Jane Doe") (lit "Acme") (lit "Engineer")
              (lit "r@acme.com")
              (Some (Upload "text/plain"
                       (File [Byte.x50; Byte.x79; Byte.x74; Byte.x68;
                              Byte.x6f; Byte.x6e] O)))
              (lit "Need Python developer") true in
  let reply := qlit "{'match_score': 90, 'recommendation': 'APPLY'}" in
  let run :=
    @script (Scripted.pdf_libs (Ok []) O (fun _ => Ok []))
            (Scripted.genai (Ok reply)) (Scripted.requests (Ok 200))
            Ref.json_loads environ ui [] in
  environ !! "N8N_WEBHOOK_URL" = None
  /\ existsb pipeline_event run.2 = true
  /\ run.2 !! 1%nat
     = Some (GenerateContent "gemini-3-flash-preview"
               (build_prompt (lit "Python") (lit "Need Python developer")))
  /\ attempts run.2 = 1%nat
  /\ existsb posts_without_url run.2 = true.
Proof.
  cbv zeta. split; [by vm_compute|]. split; [by vm_compute|].
  split; [by vm_compute|]. split; by vm_compute.
Qed.

(** C9, amended.  The module checks neither value.  The API key, set or
    not, goes to the client constructor; if that constructor raises, the
    script ends there, before any other step.  The webhook URL is not looked
    at before the delivery: when it is missing, the client was built, a
    resume was extracted and the form is filled in, pressing the button
    still sends the prompt to the model. *)
Theorem configuration_is_not_validated (L : PdfLibs) (G : GenaiLib)
    (R : RequestsLib payload) (json_loads : decoder)
    (environ : gmap string (list N)) (ui : inputs) (log : list event) :
  (forall e,
     genai_Client (environ !! "GEMINI_API_KEY") = Raise e ->
     script json_loads environ ui log = (Raise e, log))
  /\ (forall (client : genai_client) (up : upload) (text : str),
        environ !! "N8N_WEBHOOK_URL" = None ->
        genai_Client (environ !! "GEMINI_API_KEY") = Ok client ->
        resume_file ui = Some up ->
        ((if String.eqb (up_type up) "application/pdf"
          then extract_text_from_pdf else extract_text_from_txt)
           (up_file up)).1 = Ok text ->
        button ui = true ->
        truthy (candidate_name ui) && truthy (company ui) && truthy (role ui)
        && truthy (recruiter_email ui) && truthy text
        && truthy (strip (jd_text ui)) = true ->
        exists rest,
          (script json_loads environ ui log).2
          = log ++ StSuccess "Resume loaded"
              :: GenerateContent "gemini-3-flash-preview"
                   (build_prompt text (jd_text ui))
              :: rest).
Proof.
  split.
  - intros e He. unfold script. apply bind_raise. unfold lift. by rewrite He.
  - intros client up text Hurl Hclient Hup Hext Hbutton Hfields.
    unfold script.
    rewrite (bind_ok _ _ log log client) by (unfold lift; by rewrite Hclient).
    rewrite Hup, Hbutton, Hurl.
    rewrite (bind_ok _ _ log (log ++ [StSuccess "Resume loaded"]) text).
    2:{ rewrite (bind_ok _ _ log log text).
        - done.
        - unfold with_file.
          destruct (String.eqb (up_type up) "application/pdf");
            by rewrite Hext. }
    unfold action. rewrite Hfields.
    rewrite (bind_ok _ _ _ (log ++ [StSuccess "Resume loaded"]) tt) by done.
    unfold analyze_resume_vs_jd.
    set (prompt := build_prompt text (jd_text ui)).
    set (log1 := log ++ [StSuccess "Resume loaded"]).
    destruct (appends_after_prompt json_loads client None ui prompt
                (log1 ++ [GenerateContent "gemini-3-flash-preview" prompt]))
      as [rest Hrest].
    exists rest. unfold log1 in *.
    rewrite <- !app_assoc in Hrest. simpl in Hrest. rewrite <- Hrest.
    f_equal. unfold bind, emit. simpl.
    by rewrite <- !app_assoc.
Qed.

Lemma configuration_is_not_validated_witness :
  let environ : gmap string (list N) := {[ "GEMINI_API_KEY" := lit "key" ]} in
  let up := Upload "text/plain"
              (File [Byte.x50; Byte.x79; Byte.x74; Byte.x68; Byte.x6f;
                     Byte.x6e] O) in
  let ui := Inputs (lit "Jane Doe") (lit "Acme") (lit "Engineer")
              (lit "r@acme.com") (Some up) (lit "Need Python developer")
              true in
  let L := Scripted.pdf_libs (Ok []) O (fun _ => Ok []) in
  let G := Scripted.genai (Ok (lit "no json here")) in
  let R := Scripted.requests (Ok 200) in
  environ !! "N8N_WEBHOOK_URL" = None
  /\ exists rest,
       (@script L G R Ref.json_loads environ ui []).2
       = [] ++ StSuccess "Resume loaded"
           :: GenerateContent "gemini-3-flash-preview"
                (build_prompt (lit "Python") (jd_text ui))
           :: rest.
Proof.
  cbv zeta.
  assert (({[ "GEMINI_API_KEY" := lit "key" ]} : gmap string (list N))
            !! "N8N_WEBHOOK_URL" = None) as Hurl by (by vm_compute).
  split; [exact Hurl|].
  eapply (proj2 (configuration_is_not_validated
                   (Scripted.pdf_libs (Ok []) O (fun _ => Ok []))
                   (Scripted.genai (Ok (lit "no json here")))
                   (Scripted.requests (Ok 200))
                   Ref.json_loads _ _ [])
            (lit "key")).
  - exact Hurl.
  - vm_compute; reflexivity.
  - reflexivity.
  - vm_compute; reflexivity.
  - reflexivity.
  - vm_compute; reflexivity.
Defined.

(** ** A complete run *)

(** A filled form, a text resume, a fenced model answer and a reachable
    webhook: the parsed score is 90 and the delivered recommendation is
    APPLY. *)
Example end_to_end :
  let environ : gmap string (list N) :=
    {[ "GEMINI_API_KEY" := lit "key";
       "N8N_WEBHOOK_URL" := lit "https://n8n.example/webhook/resume" ]} in
  let resume := utf8_encode (lit "5 years Python") in
  let ui := Inputs (lit "Jane Doe") (lit "Acme") (lit "Engineer")
              (lit "r@acme.com") (Some (Upload "text/plain" (File resume O)))
              (lit "Need Python developer") true in
  let reply :=
    lit "```json" ++ nl
    ++ qlit "{'match_score': 90, 'matched_skills': ['Python'], "
    ++ qlit "'missing_skills': [], 'experience_fit': 'HIGH', "
    ++ qlit "'recommendation': 'APPLY', 'summary': 'Strong fit'}"
    ++ nl ++ lit "```" in
  let run :=
    @script (Scripted.pdf_libs (Ok []) O (fun _ => Ok []))
            (Scripted.genai (Ok reply)) (Scripted.requests (Ok 200))
            Ref.json_loads environ ui [] in
  run.1 = Ok tt
  /\ run.2 !! 1%nat
     = Some (GenerateContent "gemini-3-flash-preview"
               (build_prompt (lit "5 years Python")
                  (lit "Need Python developer")))
  /\ run.2 !! 5%nat = Some (StMetric "Match Score" (JInt 90))
  /\ exists body,
       run.2 !! 9%nat
       = Some (RequestsPost (Some (lit "https://n8n.example/webhook/resume"))
                 body 5)
       /\ json_get (p_gemini_result body) (lit "recommendation") JNull
          = Ok (JString (lit "APPLY")).
Proof.
  cbv zeta. split; [by vm_compute|]. split; [by vm_compute|].
  split; [by vm_compute|]. eexists. split; by vm_compute.
Qed.

(** * Further properties *)

(** ** Cleaning only deletes *)

Lemma replace_delete_sublist (x : char) (old s : str) :
  replace (x :: old) [] s `sublist_of` s.
Proof.
  remember (length s) as n eqn:Hn.
  revert s Hn. induction n as [n IH] using lt_wf_ind. intros s Hn.
  destruct s as [|y s]; [done|].
  destruct (startswith (y :: s) (x :: old)) eqn:Hs.
  - destruct (startswith_split _ _ Hs) as [r Hr]. rewrite Hr.
    rewrite replace_hit. simpl app at 1. apply sublist_inserts_l.
    eapply IH; [|done]. rewrite Hn, Hr, length_app. simpl. lia.
  - rewrite replace_miss by done. apply sublist_skip.
    eapply IH; [|done]. rewrite Hn. simpl. lia.
Qed.

Lemma without_fences_sublist (s : str) : without_fences s `sublist_of` s.
Proof.
  unfold without_fences. rewrite fence_lit.
  change (lit "```json") with (backtick :: lit "``json").
  etrans; apply replace_delete_sublist.
Qed.

Lemma strip_sublist (s : str) : strip s `sublist_of` s.
Proof.
  destruct (strip_infix s) as (l & r & H). rewrite H at 2.
  by apply sublist_inserts_l, sublist_inserts_r.
Qed.

Lemma cleaned_sublist (text : str) : cleaned text `sublist_of` text.
Proof.
  unfold cleaned. etrans; [apply strip_sublist|apply without_fences_sublist].
Qed.

Lemma cleaned_no_fence (text : str) :
  contains (cleaned text) (lit "```") = false.
Proof.
  destruct (strip_infix (without_fences text)) as (l & r & Hs).
  apply (contains_infix l _ r). fold (cleaned text) in Hs.
  rewrite <- Hs. apply without_fences_clean.
Qed.

Lemma lstrip_fixed (s : str) :
  (forall c, head s = Some c -> is_space c = false) -> lstrip s = s.
Proof.
  destruct s as [|x s]; [done|]. intros H. simpl. by rewrite (H x).
Qed.

Lemma rstrip_fixed (s : str) :
  (forall c, last s = Some c -> is_space c = false) -> rstrip s = s.
Proof.
  intros H. unfold rstrip. rewrite lstrip_fixed.
  - apply reverse_involutive.
  - intros c. rewrite head_reverse. apply H.
Qed.

Lemma strip_fixed (s : str) :
  (forall c, head s = Some c -> is_space c = false) ->
  (forall c, last s = Some c -> is_space c = false) ->
  strip s = s.
Proof.
  intros Hh Hl. unfold strip. rewrite lstrip_fixed by done.
  by apply rstrip_fixed.
Qed.

Lemma strip_idempotent (s : str) : strip (strip s) = strip s.
Proof.
  destruct (strip_trimmed s) as (l & r & _ & _ & _ & Hh & Hl).
  by apply strip_fixed.
Qed.

Lemma cleaned_idempotent (text : str) : cleaned (cleaned text) = cleaned text.
Proof.
  unfold cleaned at 1.
  rewrite (without_fences_absent (cleaned text)) by apply cleaned_no_fence.
  apply strip_idempotent.
Qed.

(** X1.  Cleaning only deletes code points: the cleaned text is the input
    with some code points left out, in the same order.  It has no
    whitespace at either end and no fence marker, and cleaning it again
    changes nothing; so parsing a cleaned text gives what parsing the
    original gives. *)
Theorem cleaning_only_deletes (json_loads : decoder) (text : str) :
  cleaned text `sublist_of` text
  /\ (forall c, head (cleaned text) = Some c -> is_space c = false)
  /\ (forall c, last (cleaned text) = Some c -> is_space c = false)
  /\ contains (cleaned text) (lit "```") = false
  /\ cleaned (cleaned text) = cleaned text
  /\ safe_json_parse json_loads (cleaned text)
     = safe_json_parse json_loads text.
Proof.
  split; [apply cleaned_sublist|].
  destruct (strip_trimmed (without_fences text))
    as (l & r & _ & _ & _ & Hh & Hl).
  split; [exact Hh|]. split; [exact Hl|].
  split; [apply cleaned_no_fence|]. split; [apply cleaned_idempotent|].
  unfold safe_json_parse. by rewrite cleaned_idempotent.
Qed.

(** ** Where a span exists *)

Lemma find_first_bound (c : char) (a b : str) :
  exists i, find_first c (a ++ c :: b) = Some i /\ (i <= length a)%nat.
Proof.
  induction a as [|x a (i & Hi & Hle)]; simpl.
  - exists O. by rewrite N.eqb_refl.
  - destruct (x =? c); [exists O; split; [done|lia]|].
    exists (S i). rewrite Hi. split; [done|lia].
Qed.

Lemma find_last_bound (c : char) (a b : str) :
  exists j, find_last c (a ++ c :: b) = Some j /\ (length a <= j)%nat.
Proof.
  induction a as [|x a (j & Hj & Hle)]; simpl.
  - destruct (find_last c b) as [j|]; [exists (S j); split; [done|lia]|].
    exists O. by rewrite N.eqb_refl.
  - rewrite Hj. exists (S j). split; [done|lia].
Qed.

Lemma find_last_split (c : char) (s : str) (j : nat) :
  find_last c s = Some j ->
  exists a b, s = a ++ c :: b /\ (c ∉ b) /\ length a = j.
Proof.
  revert j. induction s as [|x s IH]; intros j; simpl; [done|].
  destruct (find_last c s) as [j'|] eqn:E.
  - intros [= <-]. destruct (IH j' eq_refl) as (a & b & -> & Hb & Hl).
    exists (x :: a), b. simpl. by rewrite Hl.
  - destruct (N.eqb_spec x c) as [->|]; [|done]. intros [= <-].
    exists [], s. split; [done|]. split; [|done].
    intros H. apply list_elem_of_split in H as (l1 & l2 & ->).
    destruct (find_last_bound c l1 l2) as (j & Hj & _). congruence.
Qed.

Lemma first_last_split (c d : char) (s : str) (i j : nat) :
  find_first c s = Some i -> find_last d s = Some j -> (i < j)%nat ->
  exists a m b, s = a ++ c :: m ++ d :: b /\ (c ∉ a) /\ (d ∉ b).
Proof.
  revert i j. induction s as [|x s IH]; intros i j; simpl; [done|].
  destruct (N.eqb_spec x c) as [->|Hxc].
  - intros [= <-]. destruct (find_last d s) as [j'|] eqn:E.
    + intros [= <-] _. destruct (find_last_split d s j' E) as (m & b & -> & Hb & _).
      exists [], m, b. split; [done|]. split; [|done]. apply not_elem_of_nil.
    + destruct (c =? d); [|done]. intros [= <-]. lia.
  - destruct (find_first c s) as [i'|] eqn:Ei; [|done]. simpl.
    intros [= <-]. destruct (find_last d s) as [j'|] eqn:Ej.
    + intros [= <-] Hlt.
      destruct (IH i' j' eq_refl eq_refl) as (a & m & b & -> & Ha & Hb); [lia|].
      exists (x :: a), m, b. split; [done|]. split; [|done].
      apply not_elem_of_cons. by split; [congruence|].
    + destruct (x =? d); [|done]. intros [= <-]. lia.
Qed.

Lemma brace_span_split (s span : str) :
  brace_span s = Some span ->
  exists a m c,
    s = a ++ lbrace :: m ++ rbrace :: c /\ (lbrace ∉ a) /\ (rbrace ∉ c)
    /\ span = lbrace :: m ++ [rbrace].
Proof.
  intros H. pose proof H as H'. unfold brace_span in H.
  destruct (find_first lbrace s) as [i|] eqn:Ei; [|done].
  destruct (find_last rbrace s) as [j|] eqn:Ej; [|done].
  destruct (Nat.ltb_spec i j) as [Hlt|]; [|done].
  destruct (first_last_split _ _ _ _ _ Ei Ej Hlt) as (a & m & c & -> & Ha & Hc).
  exists a, m, c. split; [done|]. split; [done|]. split; [done|].
  rewrite brace_span_app in H' by done. by injection H' as <-.
Qed.

Lemma brace_span_exists (a m c : str) :
  is_Some (brace_span (a ++ lbrace :: m ++ rbrace :: c)).
Proof.
  unfold brace_span.
  destruct (find_first_bound lbrace a (m ++ rbrace :: c)) as (i & -> & Hi).
  rewrite (app_comm_cons m), app_assoc.
  destruct (find_last_bound rbrace (a ++ lbrace :: m) c) as (j & -> & Hj).
  rewrite length_app in Hj. simpl in Hj.
  destruct (Nat.ltb_spec i j); [by eexists|lia].
Qed.

(** X2.  [safe_json_parse] raises its "no JSON object found" [ValueError]
    exactly when the text as given has no opening brace with a closing
    brace somewhere after it: for the empty text, for a text without
    braces, and for a text whose closing braces all come first.  Fences and
    surrounding whitespace never decide it. *)
Theorem safe_json_parse_no_json_iff (json_loads : decoder) (text : str) :
  safe_json_parse json_loads text
  = Raise (ValueError "No JSON object found in Gemini output")
  <-> ~ exists a m c, text = a ++ lbrace :: m ++ rbrace :: c.
Proof.
  rewrite safe_json_parse_unfold.
  destruct (brace_span (cleaned text)) as [span|] eqn:Hspan.
  - split.
    + unfold call_loads. destruct (json_loads span) as [v|err]; [done|].
      intros [= H]. by apply loads_exception_not_no_json in H.
    + intros Hno. exfalso. apply Hno.
      destruct (brace_span_split _ _ Hspan) as (a & m & c & Hcl & _).
      pose proof (cleaned_sublist text) as Hsub. rewrite Hcl in Hsub.
      apply sublist_app_cons_l in Hsub as (k1 & k2 & -> & _ & Hsub).
      apply sublist_app_cons_l in Hsub as (k3 & k4 & -> & _ & _).
      by exists k1, k3, k4.
  - split; [|done]. intros _ (a & m & c & ->).
    rewrite cleaned_around_braces in Hspan.
    destruct (brace_span_exists (lstrip (without_fences a)) (without_fences m)
                (rstrip (without_fences c))) as [span Hs].
    congruence.
Qed.

(** X3.  Whatever text the pattern matches in the cleaned text, it starts
    with an opening brace and ends with a closing brace, holds no fence
    marker, and has no opening brace before it and no closing brace after
    it in the cleaned text; this text is the document the decoder gets. *)
Theorem decoder_document_is_braced (json_loads : decoder) (text span : str) :
  re_search json_span_re (cleaned text) = Some span ->
  (exists a m c,
     cleaned text = a ++ span ++ c /\ span = lbrace :: m ++ [rbrace]
     /\ (lbrace ∉ a) /\ (rbrace ∉ c))
  /\ contains span (lit "```") = false
  /\ safe_json_parse json_loads text = call_loads json_loads span.
Proof.
  intros H. pose proof H as H'. rewrite re_search_brace_span in H'.
  destruct (brace_span_split _ _ H') as (a & m & c & Hcl & Ha & Hc & ->).
  split; [|split].
  - exists a, m, c. split; [|done]. rewrite Hcl. simpl.
    by rewrite <- app_assoc.
  - apply (contains_infix a _ c).
    replace (a ++ (lbrace :: m ++ [rbrace]) ++ c) with (cleaned text).
    + apply cleaned_no_fence.
    + rewrite Hcl. simpl. by rewrite <- app_assoc.
  - unfold safe_json_parse. by rewrite H.
Qed.

Lemma decoder_document_is_braced_witness :
  let text := lit "Sure! ```json" ++ nl ++ qlit "{'a': {'b': 1}}" ++ nl
              ++ lit "``` Hope this helps." in
  let span := qlit "{'a': {'b': 1}}" in
  re_search json_span_re (cleaned text) = Some span
  /\ contains span (lit "```") = false
  /\ safe_json_parse Ref.json_loads text = call_loads Ref.json_loads span.
Proof.
  cbv zeta.
  assert (re_search json_span_re
            (cleaned (lit "Sure! ```json" ++ nl ++ qlit "{'a': {'b': 1}}"
                      ++ nl ++ lit "``` Hope this helps."))
          = Some (qlit "{'a': {'b': 1}}")) as H
    by (vm_compute; reflexivity).
  split; [exact H|].
  exact (proj2 (decoder_document_is_braced Ref.json_loads _ _ H)).
Defined.

(** ** One press of the button *)

Lemma action_unfold `{GenaiLib} `{RequestsLib payload} (json_loads : decoder)
    (client : genai_client) (url : option str) (ui : inputs)
    (resume_text : str) (log : list event) :
  action json_loads client url ui resume_text log
  = if form_filled ui resume_text then
      let prompt := build_prompt resume_text (jd_text ui) in
      let log1 := log ++ [GenerateContent "gemini-3-flash-preview" prompt] in
      match generate_content client "gemini-3-flash-preview" prompt with
      | Raise e => (Raise e, log1)
      | Ok text =>
          let log2 := log1 ++ [StCode (strip text)] in
          match safe_json_parse json_loads (strip text) with
          | Raise e =>
              if isinstance e "Exception"
              then (Raise StopException,
                    log2 ++ [StError "❌ Gemini response is not valid JSON";
                             StException e])
              else (Raise e, log2)
          | Ok v =>
              let log3 :=
                log2 ++ [StSuccess "✅ Gemini JSON Parsed Successfully";
                         StJson v] in
              match json_get v (lit "match_score") (JInt 0),
                    json_get v (lit "recommendation") (JString (lit "N/A")),
                    json_get v (lit "summary") (JString []) with
              | Ok score, Ok rec, Ok summary =>
                  match dispatch url
                          (Payload (candidate_name ui) (company ui) (role ui)
                             (recruiter_email ui) v)
                          (log3 ++ [StMetric "Match Score" score;
                                    StInfoValue "Recommendation: " rec;
                                    StWriteLit "### Summary";
                                    StWrite summary]) with
                  | (Ok _, log4) =>
                      (Ok tt,
                       log4 ++ [StInfo
                         "📊 Check Google Sheets & Email for final result"])
                  | (Raise e, log4) => (Raise e, log4)
                  end
              | Raise e, _, _ => (Raise e, log3)
              | Ok score, Raise e, _ =>
                  (Raise e, log3 ++ [StMetric "Match Score" score])
              | Ok score, Ok rec, Raise e =>
                  (Raise e, log3 ++ [StMetric "Match Score" score;
                                     StInfoValue "Recommendation: " rec;
                                     StWriteLit "### Summary"])
              end
          end
      end
    else (Raise StopException,
          log ++ [StWarning "Please fill all fields and upload resume."]).
Proof.
  unfold action. fold (form_filled ui resume_text).
  destruct (form_filled ui resume_text); [|done].
  unfold analyze_resume_vs_jd, try_except, bind, emit, lift, ret, st_stop,
    raise.
  cbv zeta.
  destruct (generate_content _ _ _) as [text|e]; [|done].
  destruct (safe_json_parse json_loads (strip text)) as [v|e].
  - destruct (json_get v (lit "match_score") (JInt 0)) as [score|e];
      [|by rewrite <- !app_assoc].
    destruct (json_get v (lit "recommendation") (JString (lit "N/A")))
      as [rec|e]; [|by rewrite <- !app_assoc].
    destruct (json_get v (lit "summary") (JString [])) as [summary|e];
      [|by rewrite <- !app_assoc].
    rewrite <- !app_assoc. simpl app.
    by destruct (dispatch _ _ _) as [[u|e] log4].
  - simpl handle. destruct (isinstance e "Exception"); [|done].
    by rewrite <- !app_assoc.
Qed.

(** Every exception of [safe_json_parse] is an [Exception]. *)
Lemma safe_json_parse_raises_Exception (json_loads : decoder) (text : str)
    (e : exn) :
  safe_json_parse json_loads text = Raise e -> isinstance e "Exception" = true.
Proof.
  unfold safe_json_parse, call_loads.
  destruct (re_search _ _) as [span|]; [|by intros [= <-]].
  destruct (json_loads span) as [v|err]; [done|].
  intros [= <-]. by destruct err.
Qed.

Lemma strip_all_space (s : str) : forallb is_space s = true -> strip s = [].
Proof.
  intros H. unfold strip.
  assert (lstrip s = []) as ->; [|done].
  induction s as [|c s IH]; [done|]. simpl in *.
  apply andb_prop in H as [-> H]. by apply IH.
Qed.

(** X4.  When a form field, the extracted resume text or the job
    description is empty, pressing the button only shows the warning and
    stops the run: no prompt is sent and nothing is delivered.  A job
    description of whitespace alone counts as empty. *)
Theorem action_rejects_incomplete_form (G : GenaiLib)
    (R : RequestsLib payload) (json_loads : decoder) (client : genai_client)
    (url : option str) (ui : inputs) (resume_text : str) (log : list event) :
  candidate_name ui = [] \/ company ui = [] \/ role ui = []
  \/ recruiter_email ui = [] \/ resume_text = []
  \/ forallb is_space (jd_text ui) = true ->
  action json_loads client url ui resume_text log
  = (Raise StopException,
     log ++ [StWarning "Please fill all fields and upload resume."]).
Proof.
  intros Hempty. rewrite action_unfold.
  assert (form_filled ui resume_text = false) as ->; [|done].
  unfold form_filled.
  destruct Hempty as [->|[->|[->|[->|[->|Hjd]]]]];
    rewrite ?andb_false_r; try done.
  rewrite (strip_all_space _ Hjd). simpl. by rewrite andb_false_r.
Qed.

Lemma action_rejects_incomplete_form_witness :
  let ui := Inputs (lit "Jane Doe") (lit "Acme") (lit "Engineer")
              (lit "r@acme.com") None (lit "   " ++ nl) true in
  forallb is_space (jd_text ui) = true
  /\ @action (Scripted.genai (Ok [])) (Scripted.requests (Ok 200))
       Ref.json_loads (lit "key") None ui (lit "5 years Python") []
     = (Raise StopException,
        [] ++ [StWarning "Please fill all fields and upload resume."]).
Proof.
  cbv zeta. split; [vm_compute; reflexivity|].
  apply action_rejects_incomplete_form.
  do 5 right. vm_compute; reflexivity.
Defined.

(** X5.  An exception of the model call is not handled: it leaves the
    run as it is, after the prompt was sent and before anything is shown
    or delivered. *)
Theorem action_model_failure_propagates (G : GenaiLib)
    (R : RequestsLib payload) (json_loads : decoder) (client : genai_client)
    (url : option str) (ui : inputs) (resume_text : str) (log : list event)
    (e : exn) :
  form_filled ui resume_text = true ->
  generate_content client "gemini-3-flash-preview"
    (build_prompt resume_text (jd_text ui)) = Raise e ->
  action json_loads client url ui resume_text log
  = (Raise e,
     log ++ [GenerateContent "gemini-3-flash-preview"
               (build_prompt resume_text (jd_text ui))]).
Proof. intros Hf Hg. rewrite action_unfold, Hf. cbv zeta. by rewrite Hg. Qed.

Lemma action_model_failure_propagates_witness :
  let ui := Inputs (lit "Jane Doe") (lit "Acme") (lit "Engineer")
              (lit "r@acme.com") None (lit "Need Python developer") true in
  let e := Exn "ServerError" ["APIError"; "Exception"; "BaseException"]
               "503 UNAVAILABLE" None 0 in
  form_filled ui (lit "5 years Python") = true
  /\ @action (Scripted.genai (Raise e)) (Scripted.requests (Ok 200))
       Ref.json_loads (lit "key") None ui (lit "5 years Python") []
     = (Raise e,
        [] ++ [GenerateContent "gemini-3-flash-preview"
                 (build_prompt (lit "5 years Python") (jd_text ui))]).
Proof.
  cbv zeta. split; [vm_compute; reflexivity|].
  apply action_model_failure_propagates; vm_compute; reflexivity.
Defined.

(** X6.  When the model's answer does not parse, whatever the reason, the
    run shows the raw answer, the error message and the exception, and
    stops: the exception never leaves the run and nothing is delivered. *)
Theorem action_parse_failure_stops (G : GenaiLib) (R : RequestsLib payload)
    (json_loads : decoder) (client : genai_client) (url : option str)
    (ui : inputs) (resume_text : str) (log : list event) (text : str)
    (e : exn) :
  form_filled ui resume_text = true ->
  generate_content client "gemini-3-flash-preview"
    (build_prompt resume_text (jd_text ui)) = Ok text ->
  safe_json_parse json_loads (strip text) = Raise e ->
  action json_loads client url ui resume_text log
  = (Raise StopException,
     log ++ [GenerateContent "gemini-3-flash-preview"
               (build_prompt resume_text (jd_text ui));
             StCode (strip text);
             StError "❌ Gemini response is not valid JSON";
             StException e])
  /\ attempts (action json_loads client url ui resume_text log).2
     = attempts log.
Proof.
  intros Hf Hg Hp.
  assert (action json_loads client url ui resume_text log
          = (Raise StopException,
             log ++ [GenerateContent "gemini-3-flash-preview"
                       (build_prompt resume_text (jd_text ui));
                     StCode (strip text);
                     StError "❌ Gemini response is not valid JSON";
                     StException e])) as Heq.
  { rewrite action_unfold, Hf. cbv zeta. rewrite Hg, Hp.
    rewrite (safe_json_parse_raises_Exception _ _ _ Hp).
    by rewrite <- !app_assoc. }
  split; [exact Heq|]. rewrite Heq. simpl. rewrite attempts_app. simpl. lia.
Qed.

Lemma action_parse_failure_stops_witness :
  let ui := Inputs (lit "Jane Doe") (lit "Acme") (lit "Engineer")
              (lit "r@acme.com") None (lit "Need Python developer") true in
  let answer := lit "I cannot help with that. " in
  let e := ValueError "No JSON object found in Gemini output" in
  let run := @action (Scripted.genai (Ok answer)) (Scripted.requests (Ok 200))
               Ref.json_loads (lit "key") None ui (lit "5 years Python") [] in
  safe_json_parse Ref.json_loads (strip answer) = Raise e
  /\ run.1 = Raise StopException
  /\ attempts run.2 = O.
Proof.
  cbv zeta.
  assert (safe_json_parse Ref.json_loads
            (strip (lit "I cannot help with that. "))
          = Raise (ValueError "No JSON object found in Gemini output")) as Hp
    by (vm_compute; reflexivity).
  split; [exact Hp|].
  destruct (action_parse_failure_stops
              (Scripted.genai (Ok (lit "I cannot help with that. ")))
              (Scripted.requests (Ok 200)) Ref.json_loads (lit "key") None
              (Inputs (lit "Jane Doe") (lit "Acme") (lit "Engineer")
                 (lit "r@acme.com") None (lit "Need Python developer") true)
              (lit "5 years Python") [] _ _ eq_refl eq_refl Hp) as [Heq Hn].
  split; [by rewrite Heq|exact Hn].
Defined.

(** X7.  When the form is filled, the model answers and the answer parses
    to an object, the run shows the object, its score, recommendation and
    summary (0, "N/A" and the empty text standing in for a missing key),
    posts the four form fields with the object exactly as parsed to the
    configured URL with a timeout of 5, and, whatever status code comes
    back, reports the request as sent and ends normally. *)
Theorem action_delivers_parsed_object (G : GenaiLib) (R : RequestsLib payload)
    (json_loads : decoder) (client : genai_client) (url : option str)
    (ui : inputs) (resume_text : str) (log : list event) (text : str)
    (members : list (str * json)) (code : N) :
  let body := Payload (candidate_name ui) (company ui) (role ui)
                (recruiter_email ui) (JObject members) in
  form_filled ui resume_text = true ->
  generate_content client "gemini-3-flash-preview"
    (build_prompt resume_text (jd_text ui)) = Ok text ->
  safe_json_parse json_loads (strip text) = Ok (JObject members) ->
  requests_post url body 5 = Ok code ->
  action json_loads client url ui resume_text log
  = (Ok tt,
     log ++ [GenerateContent "gemini-3-flash-preview"
               (build_prompt resume_text (jd_text ui));
             StCode (strip text);
             StSuccess "✅ Gemini JSON Parsed Successfully";
             StJson (JObject members);
             StMetric "Match Score"
               (default (JInt 0) (assoc (lit "match_score") members));
             StInfoValue "Recommendation: "
               (default (JString (lit "N/A"))
                  (assoc (lit "recommendation") members));
             StWriteLit "### Summary";
             StWrite (default (JString []) (assoc (lit "summary") members));
             RequestsPost url body 5;
             StSuccess "✅ Request sent to n8n. Processing in background.";
             StInfo "📊 Check Google Sheets & Email for final result"]).
Proof.
  intros body Hf Hg Hp Hr. rewrite action_unfold, Hf. cbv zeta.
  rewrite Hg, Hp. simpl json_get. cbv iota. rewrite dispatch_unfold.
  fold body. rewrite Hr. cbv iota beta. rewrite <- !app_assoc.
  by cbn [app].
Qed.

Lemma action_delivers_parsed_object_witness :
  let ui := Inputs (lit "Jane Doe") (lit "Acme") (lit "Engineer")
              (lit "r@acme.com") None (lit "Need Python developer") true in
  let answer := qlit "{'match_score': 50, 'extra_field': 'x'}" in
  let members := [(lit "match_score", JInt 50);
                  (lit "extra_field", JString (lit "x"))] in
  let url := Some (lit "https://n8n.example/webhook/resume") in
  let run := @action (Scripted.genai (Ok answer)) (Scripted.requests (Ok 500))
               Ref.json_loads (lit "key") url ui (lit "5 years Python") [] in
  safe_json_parse Ref.json_loads (strip answer) = Ok (JObject members)
  /\ run.1 = Ok tt
  /\ run.2 !! 5%nat
     = Some (StInfoValue "Recommendation: " (JString (lit "N/A")))
  /\ run.2 !! 8%nat
     = Some (RequestsPost url
               (Payload (lit "Jane Doe") (lit "Acme") (lit "Engineer")
                  (lit "r@acme.com") (JObject members)) 5).
Proof.
  cbv zeta.
  assert (safe_json_parse Ref.json_loads
            (strip (qlit "{'match_score': 50, 'extra_field': 'x'}"))
          = Ok (JObject [(lit "match_score", JInt 50);
                         (lit "extra_field", JString (lit "x"))])) as Hp
    by (vm_compute; reflexivity).
  split; [exact Hp|].
  rewrite (action_delivers_parsed_object
             (Scripted.genai
                (Ok (qlit "{'match_score': 50, 'extra_field': 'x'}")))
             (Scripted.requests (Ok 500)) Ref.json_loads (lit "key")
             (Some (lit "https://n8n.example/webhook/resume"))
             (Inputs (lit "Jane Doe") (lit "Acme") (lit "Engineer")
                (lit "r@acme.com") None (lit "Need Python developer") true)
             (lit "5 years Python") [] _ _ 500 eq_refl eq_refl Hp eq_refl).
  split; [done|]. split; by vm_compute.
Defined.

(** ** One run of the script *)

Lemma model_calls_app (l1 l2 : list event) :
  model_calls (l1 ++ l2) = (model_calls l1 + model_calls l2)%nat.
Proof. induction l1 as [|ev l1 IH]; simpl; [done|]. rewrite IH. lia. Qed.

Lemma dispatch_counts `{RequestsLib payload} (url : option str)
    (body : payload) (log : list event) :
  attempts (dispatch url body log).2 = S (attempts log)
  /\ model_calls (dispatch url body log).2 = model_calls log.
Proof.
  rewrite dispatch_unfold.
  destruct (requests_post url body 5) as [code|e];
    [|destruct (isinstance e "ReadTimeout");
      [|destruct (isinstance e "RequestException")]];
    simpl; rewrite attempts_app, model_calls_app; simpl; lia.
Qed.

(** Pressing the button sends at most one prompt and makes at most one
    delivery attempt, the latter only after the former. *)
Lemma action_counts `{GenaiLib} `{RequestsLib payload} (json_loads : decoder)
    (client : genai_client) (url : option str) (ui : inputs)
    (resume_text : str) (log : list event) :
  let log' := (action json_loads client url ui resume_text log).2 in
  (model_calls log' <= S (model_calls log))%nat
  /\ (attempts log' <= S (attempts log))%nat
  /\ (attempts log < attempts log' ->
      model_calls log' = S (model_calls log))%nat.
Proof.
  rewrite action_unfold. cbv zeta.
  destruct (form_filled ui resume_text);
    [|simpl; rewrite attempts_app, model_calls_app; simpl; lia].
  destruct (generate_content _ _ _) as [text|e];
    [|simpl; rewrite attempts_app, model_calls_app; simpl; lia].
  destruct (safe_json_parse json_loads (strip text)) as [v|e].
  - destruct (json_get v (lit "match_score") (JInt 0)) as [score|e];
      [|simpl; rewrite !attempts_app, !model_calls_app; simpl; lia].
    destruct (json_get v (lit "recommendation") (JString (lit "N/A")))
      as [rec|e];
      [|simpl; rewrite !attempts_app, !model_calls_app; simpl; lia].
    destruct (json_get v (lit "summary") (JString [])) as [summary|e];
      [|simpl; rewrite !attempts_app, !model_calls_app; simpl; lia].
    match goal with
    | |- context [dispatch ?u ?b ?l] =>
        destruct (dispatch_counts u b l) as [Ha Hm];
        destruct (dispatch u b l) as [[u'|e] log4]
    end; simpl in *;
      rewrite ?attempts_app, ?model_calls_app in *; simpl in *; lia.
  - destruct (isinstance e "Exception"); simpl;
      rewrite !attempts_app, !model_calls_app; simpl; lia.
Qed.

Lemma script_unfold `{PdfLibs} `{GenaiLib} `{RequestsLib payload}
    (json_loads : decoder) (environ : gmap string (list N)) (ui : inputs)
    (log : list event) :
  script json_loads environ ui log
  = match genai_Client (environ !! "GEMINI_API_KEY") with
    | Raise e => (Raise e, log)
    | Ok client =>
        match resume_file ui with
        | None =>
            if button ui
            then action json_loads client (environ !! "N8N_WEBHOOK_URL")
                   ui [] log
            else (Ok tt, log)
        | Some up =>
            match ((if String.eqb (up_type up) "application/pdf"
                    then extract_text_from_pdf else extract_text_from_txt)
                     (up_file up)).1 with
            | Raise e => (Raise e, log)
            | Ok t =>
                if button ui
                then action json_loads client (environ !! "N8N_WEBHOOK_URL")
                       ui t (log ++ [StSuccess "Resume loaded"])
                else (Ok tt, log ++ [StSuccess "Resume loaded"])
            end
        end
    end.
Proof.
  unfold script, bind, lift, ret, emit, with_file.
  destruct (genai_Client _) as [client|e]; [|done].
  destruct (resume_file ui) as [up|]; [|by destruct (button ui)].
  destruct (String.eqb (up_type up) "application/pdf");
    [destruct (extract_text_from_pdf (up_file up)) as [[t|e] f']
    |destruct (extract_text_from_txt (up_file up)) as [[t|e] f']];
    simpl; try done; by destruct (button ui).
Qed.

(** X8.  A run of the script sends at most one prompt to the model and
    makes at most one delivery attempt, and it attempts a delivery only in
    a run that sent a prompt. *)
Theorem script_calls_at_most_once (L : PdfLibs) (G : GenaiLib)
    (R : RequestsLib payload) (json_loads : decoder)
    (environ : gmap string (list N)) (ui : inputs) (log : list event) :
  let log' := (script json_loads environ ui log).2 in
  (model_calls log' <= S (model_calls log))%nat
  /\ (attempts log' <= S (attempts log))%nat
  /\ (attempts log < attempts log' ->
      model_calls log' = S (model_calls log))%nat.
Proof.
  cbv zeta. rewrite script_unfold.
  destruct (genai_Client _) as [client|e]; [|simpl; lia].
  destruct (resume_file ui) as [up|].
  - destruct (_ (up_file up)).1 as [t|e]; [|simpl; lia].
    destruct (button ui).
    + pose proof (action_counts json_loads client
                    (environ !! "N8N_WEBHOOK_URL") ui t
                    (log ++ [StSuccess "Resume loaded"])) as Hc.
      cbv zeta in Hc. rewrite attempts_app, model_calls_app in Hc.
      simpl in Hc. lia.
    + simpl. rewrite attempts_app, model_calls_app. simpl. lia.
  - destruct (button ui); [|simpl; lia].
    apply (action_counts json_loads client (environ !! "N8N_WEBHOOK_URL")
             ui [] log).
Qed.

(** X9.  A run in which the button was not pressed calls neither the model
    nor the webhook: it shows at most "Resume loaded". *)
Theorem script_idle_makes_no_calls (L : PdfLibs) (G : GenaiLib)
    (R : RequestsLib payload) (json_loads : decoder)
    (environ : gmap string (list N)) (ui : inputs) (log : list event) :
  button ui = false ->
  let log' := (script json_loads environ ui log).2 in
  (log' = log \/ log' = log ++ [StSuccess "Resume loaded"])
  /\ model_calls log' = model_calls log
  /\ attempts log' = attempts log.
Proof.
  intros Hb. cbv zeta. rewrite script_unfold, Hb.
  destruct (genai_Client _) as [client|e]; [|by split; [left|]].
  destruct (resume_file ui) as [up|]; [|by split; [left|]].
  destruct (_ (up_file up)).1 as [t|e]; [|by split; [left|]].
  simpl. split; [by right|].
  rewrite attempts_app, model_calls_app. simpl. lia.
Qed.

Lemma script_idle_makes_no_calls_witness :
  let environ : gmap string (list N) := {[ "GEMINI_API_KEY" := lit "key" ]} in
  let ui := Inputs (lit "Jane Doe") [] [] []
              (Some (Upload "text/plain" (File (utf8_encode (lit "Python")) O)))
              [] false in
  let run := @script (Scripted.pdf_libs (Ok []) O (fun _ => Ok []))
               (Scripted.genai (Ok [])) (Scripted.requests (Ok 200))
               Ref.json_loads environ ui [] in
  button ui = false
  /\ model_calls run.2 = O /\ attempts run.2 = O.
Proof.
  cbv zeta. split; [reflexivity|].
  exact (proj2 (script_idle_makes_no_calls
                  (Scripted.pdf_libs (Ok []) O (fun _ => Ok []))
                  (Scripted.genai (Ok [])) (Scripted.requests (Ok 200))
                  Ref.json_loads {[ "GEMINI_API_KEY" := lit "key" ]}
                  (Inputs (lit "Jane Doe") [] [] []
                     (Some (Upload "text/plain"
                              (File (utf8_encode (lit "Python")) O)))
                     [] false)
                  [] eq_refl)).
Defined.

(** X10.  An exception raised while the uploaded file is read is not
    handled by the script: it ends the run at once, before "Resume loaded"
    is shown, whether or not the button was pressed. *)
Theorem script_extraction_failure_propagates (L : PdfLibs) (G : GenaiLib)
    (R : RequestsLib payload) (json_loads : decoder)
    (environ : gmap string (list N)) (ui : inputs) (log : list event)
    (client : genai_client) (up : upload) (e : exn) :
  genai_Client (environ !! "GEMINI_API_KEY") = Ok client ->
  resume_file ui = Some up ->
  ((if String.eqb (up_type up) "application/pdf"
    then extract_text_from_pdf else extract_text_from_txt)
     (up_file up)).1 = Raise e ->
  script json_loads environ ui log = (Raise e, log).
Proof.
  intros Hc Hu He. by rewrite script_unfold, Hc, Hu, He.
Qed.

Lemma script_extraction_failure_propagates_witness :
  let environ : gmap string (list N) := {[ "GEMINI_API_KEY" := lit "key" ]} in
  let ui := Inputs (lit "Jane Doe") (lit "Acme") (lit "Engineer")
              (lit "r@acme.com")
              (Some (Upload "text/plain" (File [Byte.xc3; Byte.x28] O)))
              (lit "Need Python developer") true in
  @script (Scripted.pdf_libs (Ok []) O (fun _ => Ok []))
    (Scripted.genai (Ok [])) (Scripted.requests (Ok 200))
    Ref.json_loads environ ui []
  = (Raise (UnicodeDecodeError "invalid continuation byte" 0), []).
Proof.
  cbv zeta.
  eapply (script_extraction_failure_propagates
            (Scripted.pdf_libs (Ok []) O (fun _ => Ok []))
            (Scripted.genai (Ok [])) (Scripted.requests (Ok 200))
            Ref.json_loads _ _ [] (lit "key")).
  - vm_compute; reflexivity.
  - reflexivity.
  - vm_compute; reflexivity.
Defined.

(** X11.  An upload from which no text comes out (a blank text file, a PDF
    without a text layer) is still announced as loaded; pressing the button
    then gives the warning and stops, with no call to the model. *)
Theorem script_empty_resume_is_loaded_then_rejected (L : PdfLibs)
    (G : GenaiLib) (R : RequestsLib payload) (json_loads : decoder)
    (environ : gmap string (list N)) (ui : inputs) (log : list event)
    (client : genai_client) (up : upload) :
  genai_Client (environ !! "GEMINI_API_KEY") = Ok client ->
  resume_file ui = Some up ->
  ((if String.eqb (up_type up) "application/pdf"
    then extract_text_from_pdf else extract_text_from_txt)
     (up_file up)).1 = Ok [] ->
  button ui = true ->
  script json_loads environ ui log
  = (Raise StopException,
     log ++ [StSuccess "Resume loaded";
             StWarning "Please fill all fields and upload resume."]).
Proof.
  intros Hc Hu He Hb. rewrite script_unfold, Hc, Hu, He, Hb.
  rewrite action_unfold.
  assert (form_filled ui [] = false) as ->.
  { unfold form_filled. simpl. by rewrite andb_false_r. }
  by rewrite <- app_assoc.
Qed.

Lemma script_empty_resume_is_loaded_then_rejected_witness :
  let environ : gmap string (list N) := {[ "GEMINI_API_KEY" := lit "key" ]} in
  let ui := Inputs (lit "Jane Doe") (lit "Acme") (lit "Engineer")
              (lit "r@acme.com")
              (Some (Upload "application/pdf"
                       (File [Byte.x25; Byte.x50; Byte.x44; Byte.x46] O)))
              (lit "Need Python developer") true in
  @script (Scripted.pdf_libs (Ok [Ok None; Ok None]) O (fun _ => Ok []))
    (Scripted.genai (Ok [])) (Scripted.requests (Ok 200))
    Ref.json_loads environ ui []
  = (Raise StopException,
     [] ++ [StSuccess "Resume loaded";
            StWarning "Please fill all fields and upload resume."]).
Proof.
  cbv zeta.
  eapply (script_empty_resume_is_loaded_then_rejected
            (Scripted.pdf_libs (Ok [Ok None; Ok None]) O (fun _ => Ok []))
            (Scripted.genai (Ok [])) (Scripted.requests (Ok 200))
            Ref.json_loads _ _ [] (lit "key")).
  - vm_compute; reflexivity.
  - reflexivity.
  - vm_compute; reflexivity.
  - reflexivity.
Defined.

(** ** More on the file helpers *)

Lemma extract_text_from_pdf_result `{PdfLibs} (f : file) (t : str) :
  (extract_text_from_pdf f).1 = Ok t -> exists s, t = strip s.
Proof.
  rewrite extract_text_from_pdf_unfold.
  destruct (pdf_primary (Frame f [])) as [[u|e] fr].
  - intros [= <-]. by eexists.
  - destruct (isinstance e "Exception"); [|done].
    destruct (pdf_fallback fr) as [[u|e'] fr']; [|done].
    intros [= <-]. by eexists.
Qed.

(** X12.  Whatever either extractor returns has no whitespace at its start
    or end, so trimming it again changes nothing. *)
Theorem extracted_text_is_trimmed (L : PdfLibs) (f : file) (t : str) :
  (extract_text_from_pdf f).1 = Ok t \/ (extract_text_from_txt f).1 = Ok t ->
  strip t = t
  /\ (forall c, head t = Some c -> is_space c = false)
  /\ (forall c, last t = Some c -> is_space c = false).
Proof.
  intros H.
  assert (exists s, t = strip s) as [s ->].
  { destruct H as [H|H].
    - by apply extract_text_from_pdf_result in H.
    - rewrite extract_text_from_txt_unfold in H.
      destruct (utf8_decode _) as [s|e]; [|done].
      injection H as <-. by eexists. }
  destruct (strip_trimmed s) as (l & r & _ & _ & _ & Hh & Hl).
  split; [apply strip_idempotent|]. by split.
Qed.

Lemma extracted_text_is_trimmed_witness :
  let f := File [Byte.x20; Byte.x09; Byte.x68; Byte.x69; Byte.x20;
                 Byte.x0a] O in
  (extract_text_from_txt f).1 = Ok (lit "hi")
  /\ strip (lit "hi") = lit "hi".
Proof.
  cbv zeta.
  assert ((extract_text_from_txt
             (File [Byte.x20; Byte.x09; Byte.x68; Byte.x69; Byte.x20;
                    Byte.x0a] O)).1 = Ok (lit "hi")) as H
    by (vm_compute; reflexivity).
  split; [exact H|].
  exact (proj1 (extracted_text_is_trimmed
                  (Scripted.pdf_libs (Ok []) O (fun _ => Ok [])) _ _
                  (or_intror H))).
Defined.

Lemma for_each_plumber `{PdfLibs} (pages : list plumber_page)
    (ts : list (option str)) (f f' : file) (text : str) :
  plumber_reads pages f ts f' ->
  for_each pages (fun page =>
    t <- on_file (plumber_extract_text page) ;; text_append (default [] t))
    (Frame f text)
  = (Ok tt, Frame f' (text ++ concat (default [] <$> ts))).
Proof.
  intros Hr. revert text.
  induction Hr as [f|p ps f f1 f2 t ts Hp _ IH]; intros text.
  - simpl. unfold ret. by rewrite app_nil_r.
  - simpl. unfold bind at 1. unfold bind at 1. unfold on_file at 1.
    simpl fr_file. rewrite Hp. unfold text_append at 1. simpl.
    rewrite IH. by rewrite <- app_assoc.
Qed.

(** X13.  When the first engine opens the file and reads every page, the
    extractor returns the page texts in page order, joined without a
    separator and trimmed, a page without text adding nothing; the second
    engine is not used and the file is left where the first engine left
    it. *)
Theorem extract_text_from_pdf_first_engine (L : PdfLibs) (f f1 f2 f3 : file)
    (pdf : plumber_pdf) (pages : list plumber_page)
    (ts : list (option str)) :
  pdfplumber_open f = (Ok pdf, f1) ->
  plumber_pages pdf f1 = (Ok pages, f2) ->
  plumber_reads pages f2 ts f3 ->
  extract_text_from_pdf f
  = (Ok (strip (concat (default [] <$> ts))), f3).
Proof.
  intros Ho Hp Hr. unfold extract_text_from_pdf, try_except, pdf_primary.
  unfold bind at 1. unfold on_file at 1. simpl fr_file. rewrite Ho.
  unfold bind at 1. unfold on_file at 1. simpl fr_file. rewrite Hp.
  simpl fr_text. by rewrite (for_each_plumber _ _ _ _ _ Hr).
Qed.

Lemma extract_text_from_pdf_first_engine_witness :
  let L := Scripted.pdf_libs
             (Ok [Ok (Some (lit " Jane Doe")); Ok None;
                  Ok (Some (lit "Python "))])
             4 (fun _ => Ok [Ok (lit "unused")]) in
  let f := File [Byte.x25; Byte.x50; Byte.x44; Byte.x46] O in
  @extract_text_from_pdf L f
  = (Ok (lit "Jane DoePython"),
     File [Byte.x25; Byte.x50; Byte.x44; Byte.x46] 4).
Proof.
  cbv zeta.
  apply (extract_text_from_pdf_first_engine
           (Scripted.pdf_libs
              (Ok [Ok (Some (lit " Jane Doe")); Ok None;
                   Ok (Some (lit "Python "))])
              4 (fun _ => Ok [Ok (lit "unused")]))
           _ _ _ _ _ _
           [Some (lit " Jane Doe"); None; Some (lit "Python ")]
           eq_refl eq_refl).
  repeat (eapply (@reads_cons (Scripted.pdf_libs _ 4 _)); [reflexivity|]).
  apply (@reads_nil (Scripted.pdf_libs _ 4 _)).
Defined.

Lemma extract_text_from_pdf_after_failure_witness :
  let e := Exn "PDFSyntaxError" ["PDFException"; "Exception"; "BaseException"]
               "No /Root object!" None 0 in
  let second (data : list Byte.byte) : result (list (result (list N))) :=
    match data with
    | [] => Ok []
    | _ => Ok [Ok (lit "Jane Doe "); Ok (lit "Python ")]
    end in
  let L := Scripted.pdf_libs (Raise e) 2 second in
  let f := File [Byte.x25; Byte.x50; Byte.x44; Byte.x46] O in
  let fr := Frame (File [Byte.x25; Byte.x50; Byte.x44; Byte.x46] 2) [] in
  @pdf_primary L (Frame f []) = (Raise e, fr)
  /\ isinstance e "Exception" = true
  /\ (@extract_text_from_pdf L f).1
     = Ok (strip (fr_text fr ++ concat [lit "Jane Doe "; lit "Python "])).
Proof.
  cbv zeta. split; [reflexivity|]. split; [reflexivity|].
  eapply (extract_text_from_pdf_after_failure
           (H := Scripted.pdf_libs _ 2 _)
           (File [Byte.x25; Byte.x50; Byte.x44; Byte.x46] O) _
           (Frame (File [Byte.x25; Byte.x50; Byte.x44; Byte.x46] 2) [])
           [Ok (lit "Jane Doe "); Ok (lit "Python ")]
           [lit "Jane Doe "; lit "Python "]).
  - reflexivity.
  - reflexivity.
  - reflexivity.
  - repeat constructor.
Defined.

Lemma extract_text_from_txt_encoded_witness :
  let s := [32; 233; 8364; 128512; 10] in
  forallb is_scalar s = true
  /\ (extract_text_from_txt (File (utf8_encode s) O)).1 = Ok [233; 8364; 128512].
Proof.
  cbv zeta. split; [vm_compute; reflexivity|].
  apply (extract_text_from_txt_encoded [32; 233; 8364; 128512; 10]).
  vm_compute; reflexivity.
Defined.

(** X16.  The text extractor uses the stream up: whatever the first call
    gave, a second call on the same file object finds nothing left to read
    and returns the empty text. *)
Theorem extract_text_from_txt_consumes_stream (f : file) :
  let f' := (extract_text_from_txt f).2 in
  extract_text_from_txt f' = (Ok [], f')
  /\ content f' = content f
  /\ (length (content f) <= position f')%nat.
Proof.
  cbv zeta.
  assert ((extract_text_from_txt f).2
          = File (content f) (max (position f) (length (content f)))) as ->.
  { unfold extract_text_from_txt, bind, file_read, lift, ret. simpl.
    by destruct (utf8_decode _). }
  split; [|split; [done|simpl; lia]].
  unfold extract_text_from_txt, bind, file_read, lift, ret. simpl.
  rewrite drop_ge by lia. simpl. do 2 f_equal. lia.
Qed.

(** ** More on the prompt *)

(** X17.  The prompt depends on the first 4000 code points of each input
    only, each input on its own: the prompt of two texts is the prompt of
    their first 4000 code points, two resumes (or two job descriptions) that
    agree on their first 4000 code points give the same prompt whatever the
    other input is, and what follows the first 4000 code points of one input
    leaves the prompt unchanged however short the other input is.  Its
    length is the length of the fixed text, 322, plus the lengths of the two
    inputs, each counted up to 4000; so it never exceeds 8322 code points. *)
Theorem build_prompt_ignores_the_rest (resume_text jd_text : str) :
  build_prompt resume_text jd_text
  = build_prompt (take 4000 resume_text) (take 4000 jd_text)
  /\ (forall resume_text' : str,
        take 4000 resume_text' = take 4000 resume_text ->
        build_prompt resume_text' jd_text = build_prompt resume_text jd_text)
  /\ (forall jd_text' : str,
        take 4000 jd_text' = take 4000 jd_text ->
        build_prompt resume_text jd_text' = build_prompt resume_text jd_text)
  /\ (forall x : str,
        (4000 <= length resume_text)%nat ->
        build_prompt (resume_text ++ x) jd_text
        = build_prompt resume_text jd_text)
  /\ (forall y : str,
        (4000 <= length jd_text)%nat ->
        build_prompt resume_text (jd_text ++ y)
        = build_prompt resume_text jd_text)
  /\ length (build_prompt resume_text jd_text)
     = (322 + min 4000 (length resume_text)
        + min 4000 (length jd_text))%nat
  /\ (length (build_prompt resume_text jd_text) <= 322 + 4000 + 4000)%nat.
Proof.
  assert (length (build_prompt resume_text jd_text)
          = (322 + min 4000 (length resume_text)
             + min 4000 (length jd_text))%nat) as Hlen.
  { unfold build_prompt, slice_to. rewrite !length_app, !length_take.
    assert (length prompt_head = 293%nat) as -> by (vm_compute; reflexivity).
    assert (length prompt_middle = 25%nat) as -> by (vm_compute; reflexivity).
    assert (length prompt_tail = 4%nat) as -> by (vm_compute; reflexivity).
    lia. }
  split.
  { unfold build_prompt, slice_to. by rewrite !take_take, !Nat.min_id. }
  split.
  { intros r' Hr. unfold build_prompt, slice_to. by rewrite Hr. }
  split.
  { intros j' Hj. unfold build_prompt, slice_to. by rewrite Hj. }
  split.
  { intros x Hr. unfold build_prompt, slice_to.
    by rewrite take_app_le by lia. }
  split.
  { intros y Hj. unfold build_prompt, slice_to.
    by rewrite take_app_le by lia. }
  split; [exact Hlen|rewrite Hlen; lia].
Qed.

Lemma build_prompt_ignores_the_rest_witness :
  let resume_text := replicate 4000 (65 : N) in
  let jd_text := lit "Need Python developer" in
  (4000 <= length resume_text)%nat
  /\ (length jd_text < 4000)%nat
  /\ build_prompt (resume_text ++ lit "References on request") jd_text
     = build_prompt resume_text jd_text.
Proof.
  cbv zeta.
  assert (4000 <= length (replicate 4000 (65 : N)))%nat as Hr
    by (rewrite length_replicate; lia).
  split; [exact Hr|]. split; [vm_compute; lia|].
  exact (proj1 (proj2 (proj2 (proj2 (build_prompt_ignores_the_rest _ _))))
           _ Hr).
Defined.
